(** * Player Card Forge: a shallow embedding of the card composition engine

    The development follows the TypeScript sources:
    - the card generator ([src/services/cardGenerator.ts]): [loadImage],
      [createPlaceholder], [drawTextWithFit], [drawShieldPath],
      [generateCard];
    - the spreadsheet service (the revision with fuzzy header matching,
      kept in [src/components/Dropzone.tsx]): [transformGoogleDriveUrl],
      [getRowValue], [parseExcelFile]; of its earlier revision only the
      computation of [formNumber] is embedded;
    - the component ([src/App.tsx]): [getPlayerImageSource] and
      [handleForgeCards] of the two-step revision, [handleProcess] of the
      one-step revision; the other handlers of the two-step revision
      ([handleParseData], [handleBatchImageUpload],
      [handleIndividualUpload], [handleGenerateScoutReport],
      [handleDownloadZip]);
    - the scouting service (kept in [src/services/cardGenerator.ts]):
      [getScoutReport].

    Modelling conventions.
    - A JavaScript [number] is an exact rational kept in lowest terms
      (every arithmetic operation is followed by [Qred]), so that [600 * 0.1]
      and [60] are the same term.  Rounding of IEEE doubles is not modelled.
      On the constants of the sources the two agree but for the photo
      rectangle of [generateCard]: as doubles [400 * 1.1] is
      440.00000000000006 and the abscissa derived from it
      129.99999999999997, where the model has 440 and 130.  The main
      theorems do not depend on these two numbers.
    - Font sizes and parsed ratings are integers ([Z]): every call site of
      [drawTextWithFit] passes an integer literal (80, 60, 24) and [parseInt]
      only produces integers.  [NaN] is [None].  Integers are exact: what
      [parseInt] and [toString] do beyond [Number.MAX_SAFE_INTEGER]
      (rounding, [Infinity], exponent notation) is not modelled, and what
      is proved of the value of a rating read from decimal digits is
      stated up to that bound.
    - An object used as a map is the list of its own entries
      ([App.lookup]).  The properties every object inherits from
      [Object.prototype] are not entries: what is proved of a lookup is
      stated for names that are not inherited ([Handlers.inherited]), and
      an assignment under the name [__proto__] creates no entry
      ([Handlers.setProperty]).
    - Strings are sequences of 8-bit code units; case mapping and white
      space are the ASCII ones.
    - The 2D canvas context is an explicit state ([Canvas.Ctx]) threaded
      through the drawing code; every painting call appends the shape it
      paints, together with the drawing state in force, to the canvas
      bitmap log.
    - What the browser decides (whether a 2D context can be obtained,
      whether an image loads, text metrics, [Math.random], PNG encoding)
      is collected in the record [Canvas.Browser]. *)

From Stdlib Require Import ZArith QArith List String Ascii Lia Bool DecimalString DecimalZ.
From Equations Require Import Equations.
Import ListNotations.

Set Implicit Arguments.

(* ===================================================================== *)
(** * Part I. The embedding *)
(* ===================================================================== *)

(** ** JavaScript values used by the program *)

Module JS.

Definition number := Q.

Definition add (a b : number) : number := Qred (a + b).
Definition sub (a b : number) : number := Qred (a - b).
Definition mul (a b : number) : number := Qred (a * b).
Definition div (a b : number) : number := Qred (a / b).

(** [a > b] on numbers. *)
Definition gt (a b : number) : bool := negb (Qle_bool a b).

Definition isWhiteSpace (c : ascii) : bool :=
  let n := nat_of_ascii c in
  (((9 <=? n) && (n <=? 13)) || (n =? 32))%nat.

Fixpoint trimStart (s : string) : string :=
  match s with
  | EmptyString => EmptyString
  | String c r => if isWhiteSpace c then trimStart r else s
  end.

Definition reverse (s : string) : string :=
  string_of_list_ascii (rev (list_ascii_of_string s)).

Definition trimEnd (s : string) : string := reverse (trimStart (reverse s)).

(** [s.trim()] *)
Definition trim (s : string) : string := trimEnd (trimStart s).

Fixpoint mapChars (f : ascii -> ascii) (s : string) : string :=
  match s with
  | EmptyString => EmptyString
  | String c r => String (f c) (mapChars f r)
  end.

Definition upperChar (c : ascii) : ascii :=
  let n := nat_of_ascii c in
  if ((97 <=? n) && (n <=? 122))%nat then ascii_of_nat (n - 32) else c.

Definition lowerChar (c : ascii) : ascii :=
  let n := nat_of_ascii c in
  if ((65 <=? n) && (n <=? 90))%nat then ascii_of_nat (n + 32) else c.

Definition toUpperCase : string -> string := mapChars upperChar.
Definition toLowerCase : string -> string := mapChars lowerChar.

(** [s.replace(/\s+/g, '')] *)
Fixpoint stripWhiteSpace (s : string) : string :=
  match s with
  | EmptyString => EmptyString
  | String c r =>
      if isWhiteSpace c then stripWhiteSpace r else String c (stripWhiteSpace r)
  end.

Definition startsWith (p s : string) : bool := String.prefix p s.
Definition endsWith (p s : string) : bool := String.prefix (reverse p) (reverse s).

(** [s.includes(sub)] and [s.indexOf(sub) === -1] *)
Definition includes (sub s : string) : bool :=
  match String.index 0 sub s with Some _ => true | None => false end.

(** [s.split(sep)[0]] for a one-character separator. *)
Fixpoint beforeFirst (sep : ascii) (s : string) : string :=
  match s with
  | EmptyString => EmptyString
  | String c r => if Ascii.eqb c sep then EmptyString else String c (beforeFirst sep r)
  end.

(** [s.substring(0, n)] *)
Definition substring0 (n : nat) (s : string) : string := String.substring 0 n s.

(** [s.padStart(target, pad)] for a one-character pad string. *)
Definition padStart (target : nat) (pad : ascii) (s : string) : string :=
  (string_of_list_ascii (repeat pad (target - String.length s)) ++ s)%string.

(** [n.toString()] for an integer-valued number. *)
Definition toString (n : Z) : string := NilZero.string_of_int (Z.to_int n).

(** Truthiness of a string: the empty string is falsy. *)
Definition truthy (s : string) : bool :=
  match s with EmptyString => false | _ => true end.

(** [v || d] where [v] is a string or [undefined]. *)
Definition orString (v : option string) (d : string) : string :=
  match v with
  | Some s => if truthy s then s else d
  | None => d
  end.

(** [v || d] where [v] is a number or [NaN]: [NaN] and [0] are falsy. *)
Definition orNumber (v : option Z) (d : Z) : Z :=
  match v with
  | Some n => if (n =? 0)%Z then d else n
  | None => d
  end.

(** Value of a character as a digit in the given radix, if it is one. *)
Definition digitValue (radix : Z) (c : ascii) : option Z :=
  let n := Z.of_nat (nat_of_ascii c) in
  let v :=
    if ((48 <=? n) && (n <=? 57))%Z then Some (n - 48)%Z
    else if ((97 <=? n) && (n <=? 122))%Z then Some (n - 87)%Z
    else if ((65 <=? n) && (n <=? 90))%Z then Some (n - 55)%Z
    else None in
  match v with
  | Some d => if (d <? radix)%Z then Some d else None
  | None => None
  end.

(** The longest prefix of digits, read in the radix; [acc] is [None] until
    a first digit has been seen. *)
Fixpoint parseDigits (radix : Z) (s : string) (acc : option Z) : option Z :=
  match s with
  | EmptyString => acc
  | String c r =>
      match digitValue radix c with
      | Some d =>
          parseDigits radix r
            (Some (match acc with Some a => a * radix + d | None => d end)%Z)
      | None => acc
      end
  end.

(** [parseInt(s)] with no radix argument: leading white space is skipped,
    an optional sign is read, a [0x]/[0X] prefix selects radix 16,
    otherwise radix 10; the result is [NaN] ([None]) when no digit
    follows. *)
Definition parseInt (s : string) : option Z :=
  let s1 := trimStart s in
  let '(sign, s2) :=
    match s1 with
    | String "-"%char r => ((-1)%Z, r)
    | String "+"%char r => (1%Z, r)
    | _ => (1%Z, s1)
    end in
  let '(radix, s3) :=
    match s2 with
    | String "0"%char (String "x"%char r) => (16%Z, r)
    | String "0"%char (String "X"%char r) => (16%Z, r)
    | _ => (10%Z, s2)
    end in
  match parseDigits radix s3 None with
  | Some n => Some (sign * n)%Z
  | None => None
  end.

(** Outcome of a settled promise. *)
Inductive Promise (A : Type) : Type :=
| Fulfilled (a : A)
| Rejected (reason : string).

Arguments Rejected {A} reason.

End JS.

Declare Scope js_scope.
Delimit Scope js_scope with js.
Notation "a + b" := (JS.add a b) : js_scope.
Notation "a - b" := (JS.sub a b) : js_scope.
Notation "a * b" := (JS.mul a b) : js_scope.
Notation "a / b" := (JS.div a b) : js_scope.

(** ** The 2D canvas *)

Module Canvas.
Import JS.

Record HTMLImageElement : Type := {
  src : string;
  crossOrigin : option string
}.

(** The value of [ctx.font]: [`${weight} ${size}px "${family}"`]. *)
Record Font : Type := {
  weight : string;
  size : Z;
  family : string
}.

Inductive Style : Type :=
| Color (css : string)
| LinearGradient (x0 y0 x1 y1 : number) (stops : list (number * string)).

(** Angles of [arc] are given in multiples of [Math.PI]. *)
Inductive PathOp : Type :=
| MoveTo (x y : number)
| LineTo (x y : number)
| QuadraticCurveTo (cpx cpy x y : number)
| Arc (x y radius startPi endPi : number)
| ClosePath.

Definition Path := list PathOp.

(** The part of the context that [save] pushes and [restore] pops. *)
Record DrawState : Type := {
  fillStyle : Style;
  strokeStyle : Style;
  lineWidth : number;
  globalAlpha : number;
  font : Font;
  textAlign : string;
  textBaseline : string;
  shadowColor : string;
  shadowBlur : number;
  clipRegion : list Path
}.

Inductive Shape : Type :=
| FillRect (x y w h : number)
| FillText (text : string) (x y : number)
| DrawImage (img : HTMLImageElement) (x y w h : number)
| StrokePath (p : Path).

(** One painting operation, with the drawing state it was painted in. *)
Record Paint : Type := {
  shape : Shape;
  drawnWith : DrawState
}.

Record Ctx : Type := {
  state : DrawState;
  saved : list DrawState;
  path : Path;
  painted : list Paint
}.

Record HTMLCanvasElement : Type := {
  width : number;
  height : number;
  bitmap : list Paint
}.

Record Browser : Type := {
  (** [canvas.getContext('2d')] yields a context (rather than [null]) *)
  getContext2d : bool;
  (** for a non-empty source: [true] when [onload] fires, [false] when
      [onerror] fires *)
  imageLoads : string -> bool;
  (** [ctx.measureText(text).width] under a given [ctx.font] *)
  textWidth : Font -> string -> number;
  (** the n-th value returned by [Math.random()] during a composition *)
  mathRandom : nat -> number;
  (** [canvas.toDataURL()] *)
  toDataURL : HTMLCanvasElement -> string
}.

Definition initialState : DrawState := {|
  fillStyle := Color "#000000";
  strokeStyle := Color "#000000";
  lineWidth := 1;
  globalAlpha := 1;
  font := {| weight := "normal"; size := 10; family := "sans-serif" |};
  textAlign := "start";
  textBaseline := "alphabetic";
  shadowColor := "rgba(0, 0, 0, 0)";
  shadowBlur := 0;
  clipRegion := []
|}.

Definition newContext : Ctx :=
  {| state := initialState; saved := []; path := []; painted := [] |}.

Definition withState (f : DrawState -> DrawState) (c : Ctx) : Ctx :=
  {| state := f (state c); saved := saved c; path := path c; painted := painted c |}.

Definition withPath (f : Path -> Path) (c : Ctx) : Ctx :=
  {| state := state c; saved := saved c; path := f (path c); painted := painted c |}.

(** Appending one painting operation to the bitmap log. *)
Definition record (p : Paint) (c : Ctx) : Ctx :=
  {| state := state c; saved := saved c; path := path c;
     painted := painted c ++ [p] |}.

Definition paint (sh : Shape) (c : Ctx) : Ctx :=
  record {| shape := sh; drawnWith := state c |} c.

(** Assignments to the context's properties. *)

Definition set_fillStyle (v : Style) : Ctx -> Ctx :=
  withState (fun s =>
    {| fillStyle := v; strokeStyle := strokeStyle s; lineWidth := lineWidth s;
       globalAlpha := globalAlpha s; font := font s; textAlign := textAlign s;
       textBaseline := textBaseline s; shadowColor := shadowColor s;
       shadowBlur := shadowBlur s; clipRegion := clipRegion s |}).

Definition set_strokeStyle (v : Style) : Ctx -> Ctx :=
  withState (fun s =>
    {| fillStyle := fillStyle s; strokeStyle := v; lineWidth := lineWidth s;
       globalAlpha := globalAlpha s; font := font s; textAlign := textAlign s;
       textBaseline := textBaseline s; shadowColor := shadowColor s;
       shadowBlur := shadowBlur s; clipRegion := clipRegion s |}).

Definition set_lineWidth (v : number) : Ctx -> Ctx :=
  withState (fun s =>
    {| fillStyle := fillStyle s; strokeStyle := strokeStyle s; lineWidth := v;
       globalAlpha := globalAlpha s; font := font s; textAlign := textAlign s;
       textBaseline := textBaseline s; shadowColor := shadowColor s;
       shadowBlur := shadowBlur s; clipRegion := clipRegion s |}).

Definition set_globalAlpha (v : number) : Ctx -> Ctx :=
  withState (fun s =>
    {| fillStyle := fillStyle s; strokeStyle := strokeStyle s; lineWidth := lineWidth s;
       globalAlpha := v; font := font s; textAlign := textAlign s;
       textBaseline := textBaseline s; shadowColor := shadowColor s;
       shadowBlur := shadowBlur s; clipRegion := clipRegion s |}).

Definition set_font (v : Font) : Ctx -> Ctx :=
  withState (fun s =>
    {| fillStyle := fillStyle s; strokeStyle := strokeStyle s; lineWidth := lineWidth s;
       globalAlpha := globalAlpha s; font := v; textAlign := textAlign s;
       textBaseline := textBaseline s; shadowColor := shadowColor s;
       shadowBlur := shadowBlur s; clipRegion := clipRegion s |}).

Definition set_textAlign (v : string) : Ctx -> Ctx :=
  withState (fun s =>
    {| fillStyle := fillStyle s; strokeStyle := strokeStyle s; lineWidth := lineWidth s;
       globalAlpha := globalAlpha s; font := font s; textAlign := v;
       textBaseline := textBaseline s; shadowColor := shadowColor s;
       shadowBlur := shadowBlur s; clipRegion := clipRegion s |}).

Definition set_textBaseline (v : string) : Ctx -> Ctx :=
  withState (fun s =>
    {| fillStyle := fillStyle s; strokeStyle := strokeStyle s; lineWidth := lineWidth s;
       globalAlpha := globalAlpha s; font := font s; textAlign := textAlign s;
       textBaseline := v; shadowColor := shadowColor s;
       shadowBlur := shadowBlur s; clipRegion := clipRegion s |}).

Definition set_shadowColor (v : string) : Ctx -> Ctx :=
  withState (fun s =>
    {| fillStyle := fillStyle s; strokeStyle := strokeStyle s; lineWidth := lineWidth s;
       globalAlpha := globalAlpha s; font := font s; textAlign := textAlign s;
       textBaseline := textBaseline s; shadowColor := v;
       shadowBlur := shadowBlur s; clipRegion := clipRegion s |}).

Definition set_shadowBlur (v : number) : Ctx -> Ctx :=
  withState (fun s =>
    {| fillStyle := fillStyle s; strokeStyle := strokeStyle s; lineWidth := lineWidth s;
       globalAlpha := globalAlpha s; font := font s; textAlign := textAlign s;
       textBaseline := textBaseline s; shadowColor := shadowColor s;
       shadowBlur := v; clipRegion := clipRegion s |}).

(** The context's methods. *)

Definition save (c : Ctx) : Ctx :=
  {| state := state c; saved := state c :: saved c; path := path c; painted := painted c |}.

(** [restore] on an empty stack does nothing. *)
Definition restore (c : Ctx) : Ctx :=
  match saved c with
  | [] => c
  | s :: rest => {| state := s; saved := rest; path := path c; painted := painted c |}
  end.

Definition beginPath : Ctx -> Ctx := withPath (fun _ => []).
Definition moveTo (x y : number) : Ctx -> Ctx := withPath (fun p => p ++ [MoveTo x y]).
Definition lineTo (x y : number) : Ctx -> Ctx := withPath (fun p => p ++ [LineTo x y]).
Definition quadraticCurveTo (cpx cpy x y : number) : Ctx -> Ctx :=
  withPath (fun p => p ++ [QuadraticCurveTo cpx cpy x y]).
Definition arc (x y r a0 a1 : number) : Ctx -> Ctx :=
  withPath (fun p => p ++ [Arc x y r a0 a1]).
Definition closePath : Ctx -> Ctx := withPath (fun p => p ++ [ClosePath]).

(** [ctx.clip()] intersects the clip region with the current path. *)
Definition clip (c : Ctx) : Ctx :=
  withState (fun s =>
    {| fillStyle := fillStyle s; strokeStyle := strokeStyle s; lineWidth := lineWidth s;
       globalAlpha := globalAlpha s; font := font s; textAlign := textAlign s;
       textBaseline := textBaseline s; shadowColor := shadowColor s;
       shadowBlur := shadowBlur s; clipRegion := clipRegion s ++ [path c] |}) c.

Definition stroke (c : Ctx) : Ctx := paint (StrokePath (path c)) c.
Definition fillRect (x y w h : number) : Ctx -> Ctx := paint (FillRect x y w h).
Definition fillText (text : string) (x y : number) : Ctx -> Ctx := paint (FillText text x y).
Definition drawImage (img : HTMLImageElement) (x y w h : number) : Ctx -> Ctx :=
  paint (DrawImage img x y w h).

Definition measureText (b : Browser) (c : Ctx) (text : string) : number :=
  textWidth b (font (state c)) text.

(** Geometry of a path: the segments it traces.  The walker keeps the
    start of the current sub-path and the current point. *)
Definition Point := (number * number)%type.

Inductive Segment : Type :=
| Straight (from to : Point)
| Quadratic (from control to : Point).

Fixpoint trace (start cur : option Point) (p : Path) : list Segment :=
  match p with
  | [] => []
  | MoveTo x y :: r => trace (Some (x, y)) (Some (x, y)) r
  | LineTo x y :: r =>
      match cur with
      | Some a => Straight a (x, y) :: trace start (Some (x, y)) r
      | None => trace (Some (x, y)) (Some (x, y)) r
      end
  | QuadraticCurveTo cx cy x y :: r =>
      match cur with
      | Some a => Quadratic a (cx, cy) (x, y) :: trace start (Some (x, y)) r
      | None => trace (Some (cx, cy)) (Some (x, y)) r
      end
  | Arc _ _ _ _ _ :: r => trace start cur r
  | ClosePath :: r =>
      match start, cur with
      | Some s, Some a => Straight a s :: trace start (Some s) r
      | _, _ => trace start cur r
      end
  end.

Definition segments (p : Path) : list Segment := trace None None p.

Definition seg_from (s : Segment) : Point :=
  match s with Straight a _ => a | Quadratic a _ _ => a end.

Definition seg_to (s : Segment) : Point :=
  match s with Straight _ b => b | Quadratic _ _ b => b end.

(** Consecutive segments share their end points. *)
Fixpoint chained (l : list Segment) : Prop :=
  match l with
  | a :: ((b :: _) as r) => seg_to a = seg_from b /\ chained r
  | _ => True
  end.

(** A closed outline: a chain that returns to where it started. *)
Definition closed (l : list Segment) : Prop :=
  match l with
  | [] => False
  | a :: _ => chained l /\ seg_to (last l a) = seg_from a
  end.

End Canvas.

(** ** services/cardGenerator.ts *)

Module CardGenerator.
Import JS Canvas.
Local Open Scope string_scope.
Local Open Scope Q_scope.
Local Open Scope js_scope.

Definition CARD_WIDTH : number := 600.
Definition CARD_HEIGHT : number := 850.

(** [types.ts], [PlayerData]. *)
Record PlayerData : Type := {
  id : string;
  name : string;
  role : string;
  battingStyle : string;
  bowlingStyle : string;
  formNumber : Z;
  imageUrl : string;
  manualImage : option string
}.

(** What [loadImage] does besides settling its promise. *)
Inductive Effect : Type :=
| WarnNoSource
| WarnLoadFailed (source : string)
| RequestImage (source : string).

Record Loading : Type := {
  promise : Promise HTMLImageElement;
  effects : list Effect
}.

Definition drawPlaceholder (ctx : Ctx) : Ctx :=
  let ctx := set_fillStyle (Color "#2a0e45") ctx in
  let ctx := fillRect 0 0 400 400 ctx in
  let ctx := set_fillStyle (Color "#4a1d6e") ctx in
  let ctx := fillRect 20 20 360 360 ctx in
  let ctx := set_fillStyle (Color "#ffd700") ctx in
  let ctx := set_font {| weight := "bold"; size := 40; family := "sans-serif" |} ctx in
  let ctx := set_textAlign "center" ctx in
  let ctx := set_textBaseline "middle" ctx in
  fillText "NO IMAGE" 200 200 ctx.

(** The canvas [createPlaceholder] builds, at the time it is encoded. *)
Definition placeholderCanvas (b : Browser) : HTMLCanvasElement :=
  {| width := 400;
     height := 400;
     bitmap := if getContext2d b then painted (drawPlaceholder newContext) else [] |}.

Definition createPlaceholder (b : Browser) : HTMLImageElement :=
  {| src := toDataURL b (placeholderCanvas b); crossOrigin := None |}.

Definition loadImage (b : Browser) (source : string) : Loading :=
  if negb (truthy source) then
    {| promise := Fulfilled (createPlaceholder b);
       effects := [WarnNoSource] |}
  else if imageLoads b source then
    {| promise := Fulfilled {| src := source; crossOrigin := Some "anonymous" |};
       effects := [RequestImage source] |}
  else
    {| promise := Fulfilled (createPlaceholder b);
       effects := [RequestImage source; WarnLoadFailed source] |}.

Definition cssFont (fontWeight : string) (fontSize : Z) (fontFace : string) : Font :=
  {| weight := fontWeight; size := fontSize; family := fontFace |}.

(** The loop guard of [drawTextWithFit]:
    [ctx.measureText(text).width > maxWidth && fontSize > 14]. *)
Definition tooWide (b : Browser) (text : string) (maxWidth : number)
    (fontSize : Z) (ctx : Ctx) : bool :=
  gt (measureText b ctx text) maxWidth && (14 <? fontSize)%Z.

Definition inspect {A : Type} (a : A) : {x : A | a = x} := exist _ a eq_refl.

(** The [while] loop of [drawTextWithFit], from a given [fontSize] and
    context; it returns the final [fontSize] and context. *)
Equations? shrinkLoop (b : Browser) (text : string) (maxWidth : number)
    (fontWeight fontFace : string) (fontSize : Z) (ctx : Ctx) : Z * Ctx
    by wf (Z.to_nat (fontSize - 14)) lt :=
  shrinkLoop b text maxWidth fontWeight fontFace fontSize ctx
    with inspect (tooWide b text maxWidth fontSize ctx) => {
    | exist _ true _ :=
        shrinkLoop b text maxWidth fontWeight fontFace (fontSize - 2)%Z
          (set_font (cssFont fontWeight (fontSize - 2) fontFace) ctx);
    | exist _ false _ := (fontSize, ctx) }.
Proof.
  unfold tooWide in e. apply andb_prop in e. destruct e as [_ e].
  apply Z.ltb_lt in e. lia.
Qed.

Definition drawTextWithFit (b : Browser) (ctx : Ctx) (text : string)
    (x y maxWidth : number) (initialFontSize : Z)
    (fontFace fontWeight color : string) : Z * Ctx :=
  let ctx := save ctx in
  let ctx := set_textAlign "center" ctx in
  let ctx := set_textBaseline "alphabetic" ctx in
  let ctx := set_fillStyle (Color color) ctx in
  let fontSize := initialFontSize in
  let ctx := set_font (cssFont fontWeight fontSize fontFace) ctx in
  let '(fontSize, ctx) := shrinkLoop b text maxWidth fontWeight fontFace fontSize ctx in
  let ctx := fillText text x y ctx in
  let ctx := restore ctx in
  (fontSize, ctx).

Definition drawShieldPath (ctx : Ctx) (w h : number) : Ctx :=
  let ctx := beginPath ctx in
  let ctx := moveTo (w * 0.1) (h * 0.1) ctx in
  let ctx := lineTo (w * 0.9) (h * 0.1) ctx in
  let ctx := lineTo (w * 0.9) (h * 0.7) ctx in
  let ctx := quadraticCurveTo (w * 0.9) (h * 0.85) (w * 0.5) (h * 0.95) ctx in
  let ctx := quadraticCurveTo (w * 0.1) (h * 0.85) (w * 0.1) (h * 0.7) ctx in
  closePath ctx.

(** The texture loop [for (let i = 0; i < 5; i++)]: [n] iterations remain,
    [i] is the loop counter. *)
Fixpoint textureLines (b : Browser) (n i : nat) (ctx : Ctx) : Ctx :=
  match n with
  | O => ctx
  | S n' =>
      let ctx := beginPath ctx in
      let ctx := moveTo (mathRandom b (2 * i)%nat * CARD_WIDTH) 0 ctx in
      let ctx := lineTo (mathRandom b (2 * i + 1)%nat * CARD_WIDTH) CARD_HEIGHT ctx in
      let ctx := stroke ctx in
      textureLines b n' (S i) ctx
  end.

(** The local helper [drawStat] of [generateCard]. *)
Definition drawStat (b : Browser) (ctx : Ctx) (label value : string) (y : number) : Ctx :=
  let ctx := beginPath ctx in
  let ctx := moveTo (CARD_WIDTH * 0.2) (y - 30) ctx in
  let ctx := lineTo (CARD_WIDTH * 0.8) (y - 30) ctx in
  let ctx := set_strokeStyle (Color "#ffd700") ctx in
  let ctx := set_lineWidth 1 ctx in
  let ctx := set_globalAlpha 0.3 ctx in
  let ctx := stroke ctx in
  let ctx := set_globalAlpha 1 ctx in
  let ctx := set_textAlign "center" ctx in
  let ctx := set_font (cssFont "400" 20 "Bebas Neue") ctx in
  let ctx := set_fillStyle (Color "#ffd700") ctx in
  let ctx := fillText label (CARD_WIDTH / 2) (y - 5) ctx in
  snd (drawTextWithFit b ctx (toUpperCase value) (CARD_WIDTH / 2) (y + 25)
         (CARD_WIDTH - 160) 24 "Montserrat" "600" "#ffffff").

(** The text drawn as the rating: [player.formNumber.toString().padStart(2, '0')]. *)
Definition ratingText (player : PlayerData) : string :=
  padStart 2 "0"%char (toString (formNumber player)).

(** Steps 2 to 6 of [generateCard]: everything between the [ctx.save()]
    that opens the clipping scope and the [ctx.restore()] that closes it. *)
Definition drawClipped (b : Browser) (player : PlayerData)
    (playerImg agrasenImg logoImg : HTMLImageElement) (ctx : Ctx) : Ctx :=
  let ctx := drawShieldPath ctx CARD_WIDTH CARD_HEIGHT in
  let ctx := clip ctx in
  let gradient :=
    LinearGradient 0 0 CARD_WIDTH CARD_HEIGHT
      [(0, "#3b1461"); (0.5, "#2a0e45"); (1, "#1a0525")] in
  let ctx := set_fillStyle gradient ctx in
  let ctx := fillRect 0 0 CARD_WIDTH CARD_HEIGHT ctx in
  let ctx := save ctx in
  let ctx := set_globalAlpha 0.1 ctx in
  let ctx := set_strokeStyle (Color "#ffffff") ctx in
  let ctx := set_lineWidth 2 ctx in
  let ctx := textureLines b 5 0 ctx in
  let ctx := restore ctx in
  let playerScale : number := 1.1 in
  let playerW := 400 * playerScale in
  let playerH := 400 * playerScale in
  let playerX := (CARD_WIDTH - playerW) / 2 + 50 in
  let playerY : number := 135 in
  let ctx := drawImage playerImg playerX playerY playerW playerH ctx in
  let fadeGradient :=
    LinearGradient 0 (playerY + playerH - 120) 0 (playerY + playerH)
      [(0, "rgba(42, 14, 69, 0)"); (1, "rgba(42, 14, 69, 1)")] in
  let ctx := set_fillStyle fadeGradient ctx in
  let ctx := fillRect 0 (playerY + playerH - 120) CARD_WIDTH 140 ctx in
  let leftColumnCenter : number := 115 in
  let cursorY : number := 160 in
  let ctx := set_shadowColor "rgba(0,0,0,0.5)" ctx in
  let ctx := set_shadowBlur 10 ctx in
  let ctx := snd (drawTextWithFit b ctx (ratingText player) leftColumnCenter cursorY
                    100 80 "Oswald" "700" "#ffd700") in
  let cursorY := cursorY + 40 in
  let roleAbbr := toUpperCase (substring0 3 (role player)) in
  let ctx := set_font (cssFont "600" 40 "Bebas Neue") ctx in
  let ctx := set_fillStyle (Color "#ffffff") ctx in
  let ctx := set_textAlign "center" ctx in
  let ctx := fillText roleAbbr leftColumnCenter cursorY ctx in
  let cursorY := cursorY + 30 in
  let ctx := beginPath ctx in
  let ctx := moveTo (leftColumnCenter - 30) cursorY ctx in
  let ctx := lineTo (leftColumnCenter + 30) cursorY ctx in
  let ctx := set_strokeStyle (Color "#ffffff") ctx in
  let ctx := set_lineWidth 2 ctx in
  let ctx := set_globalAlpha 0.5 ctx in
  let ctx := stroke ctx in
  let ctx := set_globalAlpha 1 ctx in
  let cursorY := cursorY + 40 in
  let iconSize : number := 70 in
  let ctx := save ctx in
  let ctx := beginPath ctx in
  let ctx := arc leftColumnCenter (cursorY + iconSize / 2) (iconSize / 2) 0 2 ctx in
  let ctx := closePath ctx in
  let ctx := clip ctx in
  let ctx := drawImage agrasenImg (leftColumnCenter - iconSize / 2) cursorY
               iconSize iconSize ctx in
  let ctx := restore ctx in
  let ctx := beginPath ctx in
  let ctx := arc leftColumnCenter (cursorY + iconSize / 2) (iconSize / 2) 0 2 ctx in
  let ctx := set_lineWidth 2 ctx in
  let ctx := set_strokeStyle (Color "#ffd700") ctx in
  let ctx := stroke ctx in
  let cursorY := cursorY + (iconSize + 20) in
  let ctx := drawImage logoImg (leftColumnCenter - iconSize / 2) cursorY
               iconSize iconSize ctx in
  let nameY : number := 530 in
  let ctx := save ctx in
  let ctx := set_shadowColor "black" ctx in
  let ctx := set_shadowBlur 4 ctx in
  let ctx := snd (drawTextWithFit b ctx (toUpperCase (name player)) (CARD_WIDTH / 2) nameY
                    (CARD_WIDTH - 120) 60 "Bebas Neue" "400" "#ffd700") in
  let ctx := restore ctx in
  let statsStartY : number := 590 in
  let statsGap : number := 58 in
  let ctx := drawStat b ctx "ROLE" (role player) statsStartY in
  let ctx := drawStat b ctx "BATTING" (battingStyle player) (statsStartY + statsGap) in
  drawStat b ctx "BOWLING" (bowlingStyle player) (statsStartY + statsGap * 2).

(** Step 7 of [generateCard]: the gold border overlay. *)
Definition drawBorder (ctx : Ctx) : Ctx :=
  let ctx := save ctx in
  let ctx := drawShieldPath ctx CARD_WIDTH CARD_HEIGHT in
  let ctx := set_lineWidth 15 ctx in
  let ctx := set_strokeStyle (Color "#ffd700") ctx in
  let ctx := stroke ctx in
  let ctx := set_lineWidth 2 ctx in
  let ctx := set_strokeStyle (Color "#fff8dc") ctx in
  let ctx := stroke ctx in
  restore ctx.

(** All drawing of [generateCard], on the context of its fresh canvas. *)
Definition drawCard (b : Browser) (player : PlayerData)
    (playerImg agrasenImg logoImg : HTMLImageElement) (ctx : Ctx) : Ctx :=
  let ctx := save ctx in
  let ctx := drawClipped b player playerImg agrasenImg logoImg ctx in
  let ctx := restore ctx in
  drawBorder ctx.

(** [Promise.all] of the three loads. *)
Definition promiseAll3 {A : Type} (p q r : Promise A) : Promise (A * A * A) :=
  match p, q, r with
  | Fulfilled a, Fulfilled c, Fulfilled d => Fulfilled (a, c, d)
  | Rejected e, _, _ => Rejected e
  | _, Rejected e, _ => Rejected e
  | _, _, Rejected e => Rejected e
  end.

(** The canvas of [generateCard] at the time it is encoded, or the error
    the call is rejected with. *)
Definition composeCanvas (b : Browser) (player : PlayerData)
    (agrasenUrl logoUrl : string) : Promise HTMLCanvasElement :=
  if getContext2d b then
    match promiseAll3 (promise (loadImage b (imageUrl player)))
                      (promise (loadImage b agrasenUrl))
                      (promise (loadImage b logoUrl)) with
    | Fulfilled (playerImg, agrasenImg, logoImg) =>
        Fulfilled {| width := CARD_WIDTH;
                     height := CARD_HEIGHT;
                     bitmap := painted (drawCard b player playerImg agrasenImg logoImg
                                          newContext) |}
    | Rejected e => Rejected e
    end
  else Rejected "Could not get canvas context".

Definition generateCard (b : Browser) (player : PlayerData)
    (agrasenUrl logoUrl : string) : Promise string :=
  match composeCanvas b player agrasenUrl logoUrl with
  | Fulfilled canvas => Fulfilled (toDataURL b canvas)
  | Rejected e => Rejected e
  end.

End CardGenerator.

(** ** services/excelService.ts *)

Module ExcelService.
Import JS CardGenerator.
Local Open Scope string_scope.

(** A cell value as [XLSX.utils.sheet_to_json] delivers it. *)
Inductive Cell : Type :=
| TextCell (s : string)
| NumberCell (n : Z)
| BoolCell (v : bool).

(** [String(v)] *)
Definition cellString (c : Cell) : string :=
  match c with
  | TextCell s => s
  | NumberCell n => toString n
  | BoolCell true => "true"
  | BoolCell false => "false"
  end.

(** A row object: its own properties in [Object.keys] order (header,
    value); blank cells have no property. *)
Definition Row := list (string * Cell).

(** [row[key]], [None] standing for [undefined]. *)
Fixpoint get (row : Row) (key : string) : option Cell :=
  match row with
  | [] => None
  | (k, v) :: rest => if String.eqb k key then Some v else get rest key
  end.

Definition isIdChar (c : ascii) : bool :=
  let n := nat_of_ascii c in
  (((48 <=? n) && (n <=? 57)) || ((65 <=? n) && (n <=? 90))
   || ((97 <=? n) && (n <=? 122)) || (n =? 95) || (n =? 45))%nat.

Fixpoint takeId (s : string) : string :=
  match s with
  | EmptyString => EmptyString
  | String c r => if isIdChar c then String c (takeId r) else EmptyString
  end.

Fixpoint dropPrefix (p s : string) : option string :=
  match p, s with
  | EmptyString, _ => Some s
  | String a p', String c s' => if Ascii.eqb a c then dropPrefix p' s' else None
  | String _ _, EmptyString => None
  end.

(** The capture group of the leftmost match of [/lit([a-zA-Z0-9_-]+)/]. *)
Fixpoint matchId (lit : string) (s : string) : option string :=
  let here :=
    match dropPrefix lit s with
    | Some rest => let i := takeId rest in if truthy i then Some i else None
    | None => None
    end in
  match here with
  | Some i => Some i
  | None => match s with
            | EmptyString => None
            | String _ r => matchId lit r
            end
  end.

(** The [for (const pattern of patterns)] loop. *)
Fixpoint firstFileId (patterns : list string) (cleanUrl : string) : string :=
  match patterns with
  | [] => ""
  | lit :: rest =>
      match matchId lit cleanUrl with
      | Some i => i
      | None => firstFileId rest cleanUrl
      end
  end.

Definition transformGoogleDriveUrl (url : string) : string :=
  if negb (truthy url) then ""
  else
    let cleanUrl := trim url in
    if negb (truthy cleanUrl) then ""
    else if negb (startsWith "http" cleanUrl)
            && (endsWith ".jpg" cleanUrl || endsWith ".png" cleanUrl
                || negb (includes "." cleanUrl))
    then cleanUrl
    else if includes "drive.google.com/thumbnail" cleanUrl then cleanUrl
    else
      let fileId := firstFileId ["/file/d/"; "id="; "/d/"] cleanUrl in
      if truthy fileId
      then "https://drive.google.com/thumbnail?id=" ++ fileId ++ "&sz=w1000"
      else cleanUrl.

(** First loop of [getRowValue]: exact header match. *)
Fixpoint exactMatch (row : Row) (possibleKeys : list string) : option string :=
  match possibleKeys with
  | [] => None
  | key :: rest =>
      match get row key with
      | Some v => Some (trim (cellString v))
      | None => exactMatch row rest
      end
  end.

(** [k.toLowerCase().replace(/\s+/g, '')] *)
Definition normalizeKey (k : string) : string := stripWhiteSpace (toLowerCase k).

(** Second loop of [getRowValue]: case-insensitive match ignoring white space. *)
Fixpoint fuzzyMatch (row : Row) (possibleKeys : list string) : option string :=
  match possibleKeys with
  | [] => None
  | key :: rest =>
      let normalizedKey := normalizeKey key in
      let hit :=
        match find (fun rk => String.eqb (normalizeKey rk) normalizedKey) (map fst row) with
        | Some foundKey => if truthy foundKey then get row foundKey else None
        | None => None
        end in
      match hit with
      | Some v => Some (trim (cellString v))
      | None => fuzzyMatch row rest
      end
  end.

Definition getRowValue (row : Row) (possibleKeys : list string) : option string :=
  match exactMatch row possibleKeys with
  | Some v => Some v
  | None => fuzzyMatch row possibleKeys
  end.

Definition formKeys : list string := ["Form Number"; "Form"; "Rating"; "OVR"].

(** The callback of [rawData.map] in [parseExcelFile]. *)
Definition parseRow (row : Row) (index : nat) : PlayerData :=
  let rawName := orString (getRowValue row ["Player Name"; "Name"; "Player"]) "Unknown" in
  let rawRole := orString (getRowValue row ["Role"; "Position"]) "All Rounder" in
  let rawBat := orString (getRowValue row ["Batting Style"; "Batting"]) "N/A" in
  let rawBowl := orString (getRowValue row ["Bowling Style"; "Bowling"]) "N/A" in
  let rawForm := orString (getRowValue row formKeys) "50" in
  let rawUrl :=
    orString (getRowValue row ["Image URL"; "Image"; "Photo"; "Picture"; "Url"; "Link"]) "" in
  let rawUrl := transformGoogleDriveUrl rawUrl in
  {| id := "player-" ++ toString (Z.of_nat index);
     name := rawName;
     role := rawRole;
     battingStyle := rawBat;
     bowlingStyle := rawBowl;
     formNumber := orNumber (parseInt rawForm) 50;
     imageUrl := rawUrl;
     manualImage := None |}.

(** [rawData.map(f)]: [f] receives each row and its index. *)
Fixpoint mapIndexed {A B : Type} (f : A -> nat -> B) (index : nat) (l : list A) : list B :=
  match l with
  | [] => []
  | a :: rest => f a index :: mapIndexed f (S index) rest
  end.

(** What reading the uploaded file gives. *)
Inductive File : Type :=
| Unreadable
| Corrupt (message : string)
| Workbook (sheets : list (string * list Row)).

Definition parseExcelFile (file : File) : Promise (list PlayerData) :=
  match file with
  | Unreadable => Rejected "Failed to read file"
  | Corrupt message => Rejected message
  | Workbook [] => Rejected "Excel file appears to be empty (no sheets found)."
  | Workbook ((_, rawData) :: _) =>
      match rawData with
      | [] => Rejected "No data found in the first sheet. Please check the file content."
      | _ =>
          let players := mapIndexed parseRow 0 rawData in
          match players with
          | [] => Rejected "Could not parse any players. Please ensure headers match the template."
          | _ => Fulfilled players
          end
      end
  end.

(** The [formNumber] field computed by the earlier revision of
    [parseExcelFile]: [parseInt(row['Form Number']) || 50], where
    [parseInt] first converts its argument to a string. *)
Definition formNumberOfCell (cell : option Cell) : Z :=
  let text := match cell with Some v => cellString v | None => "undefined" end in
  orNumber (parseInt text) 50.

Definition legacyFormNumber (row : Row) : Z :=
  formNumberOfCell (get row "Form Number").

End ExcelService.

(** ** App.tsx *)

Module App.
Import JS Canvas CardGenerator ExcelService.
Local Open Scope string_scope.

Inductive ProcessStatus : Type :=
| IDLE | PARSING | REVIEW | GENERATING | COMPLETED | ERROR.

Record GeneratedCard : Type := {
  playerId : string;
  dataUrl : string;
  scoutReport : option string
}.

Record CardAssets : Type := {
  excelFile : option File;
  agrasenImage : option string;
  logoImage : option string;
  localImageMap : list (string * string)
}.

(** The component's state (the [useState] cells the handlers write). *)
Record AppState : Type := {
  assets : CardAssets;
  players : list PlayerData;
  generatedCards : list GeneratedCard;
  status : ProcessStatus;
  errorMessage : option string;
  selectedCard : option GeneratedCard
}.

Definition setPlayers (v : list PlayerData) (st : AppState) : AppState :=
  {| assets := assets st; players := v; generatedCards := generatedCards st;
     status := status st; errorMessage := errorMessage st; selectedCard := selectedCard st |}.

Definition setGeneratedCards (v : list GeneratedCard) (st : AppState) : AppState :=
  {| assets := assets st; players := players st; generatedCards := v;
     status := status st; errorMessage := errorMessage st; selectedCard := selectedCard st |}.

Definition setStatus (v : ProcessStatus) (st : AppState) : AppState :=
  {| assets := assets st; players := players st; generatedCards := generatedCards st;
     status := v; errorMessage := errorMessage st; selectedCard := selectedCard st |}.

Definition setErrorMessage (v : option string) (st : AppState) : AppState :=
  {| assets := assets st; players := players st; generatedCards := generatedCards st;
     status := status st; errorMessage := v; selectedCard := selectedCard st |}.

Definition setSelectedCard (v : option GeneratedCard) (st : AppState) : AppState :=
  {| assets := assets st; players := players st; generatedCards := generatedCards st;
     status := status st; errorMessage := errorMessage st; selectedCard := v |}.

(** [map[key]] read for its truthiness: a missing key and an empty value
    both count as absent. *)
Fixpoint lookup (m : list (string * string)) (key : string) : option string :=
  match m with
  | [] => None
  | (k, v) :: rest =>
      if String.eqb k key then (if truthy v then Some v else None) else lookup rest key
  end.

Definition getPlayerImageSource (a : CardAssets) (player : PlayerData) : option string :=
  let manual :=
    match manualImage player with
    | Some m => if truthy m then Some m else None
    | None => None
    end in
  match manual with
  | Some m => Some m
  | None =>
      let excelValue := trim (imageUrl player) in
      match lookup (localImageMap a) excelValue with
      | Some v => Some v
      | None =>
          let nameNoExt := beforeFirst "."%char excelValue in
          match lookup (localImageMap a) nameNoExt with
          | Some v => Some v
          | None =>
              if startsWith "http" (imageUrl player) || startsWith "data:" (imageUrl player)
              then Some (imageUrl player)
              else None
          end
      end
  end.

(** [{ ...player, imageUrl: v }] *)
Definition withImageUrl (player : PlayerData) (v : string) : PlayerData :=
  {| id := id player; name := name player; role := role player;
     battingStyle := battingStyle player; bowlingStyle := bowlingStyle player;
     formNumber := formNumber player; imageUrl := v;
     manualImage := manualImage player |}.

(** How a handler ends: its local array [cards], the error caught by its
    [try]/[catch] if any, and the component state it leaves. *)
Record Batch : Type := {
  produced : list GeneratedCard;
  caught : option string;
  app : AppState
}.

(** A string that is neither [null] nor empty. *)
Definition present (v : option string) : option string :=
  match v with
  | Some s => if truthy s then Some s else None
  | None => None
  end.

(** The loop [for (const player of players)] of [handleForgeCards].  The
    [i]-th composition of the batch runs in the browser conditions
    [world i]; a rejected composition leaves the loop. *)
Fixpoint forgeLoop (world : nat -> Browser) (agrasen logo : string) (i : nat)
    (remaining : list PlayerData) (cards : list GeneratedCard) (st : AppState) : Batch :=
  match remaining with
  | [] => {| produced := cards; caught := None; app := st |}
  | player :: rest =>
      let finalSource := orString (getPlayerImageSource (assets st) player) "" in
      match generateCard (world i) (withImageUrl player finalSource) agrasen logo with
      | Rejected e => {| produced := cards; caught := Some e; app := st |}
      | Fulfilled url =>
          let cards := (cards ++ [{| playerId := id player; dataUrl := url;
                                     scoutReport := None |}])%list in
          forgeLoop world agrasen logo (S i) rest cards (setGeneratedCards cards st)
      end
  end.

(** What follows the loop inside [try], and the [catch] branch. *)
Definition finish (reportMessage : bool) (r : Batch) : Batch :=
  match caught r with
  | None =>
      let st := setStatus COMPLETED (app r) in
      let st := match produced r with
                | c :: _ => setSelectedCard (Some c) st
                | [] => st
                end in
      {| produced := produced r; caught := None; app := st |}
  | Some e =>
      let st := setStatus ERROR (app r) in
      let st := if reportMessage then setErrorMessage (Some e) st else st in
      {| produced := produced r; caught := Some e; app := st |}
  end.

Definition handleForgeCards (world : nat -> Browser) (st : AppState) : Batch :=
  match present (agrasenImage (assets st)), present (logoImage (assets st)) with
  | Some agrasen, Some logo =>
      let st := setStatus GENERATING st in
      finish true (forgeLoop world agrasen logo 0 (players st) [] st)
  | _, _ =>
      {| produced := []; caught := None;
         app := setErrorMessage
                  (Some "Please upload the Agrasen Portrait and Tournament Logo before generating.")
                  st |}
  end.

(** The loop [for (const player of parsedPlayers)] of [handleProcess]. *)
Fixpoint processLoop (world : nat -> Browser) (agrasen logo : string) (i : nat)
    (remaining : list PlayerData) (cards : list GeneratedCard) (st : AppState) : Batch :=
  match remaining with
  | [] => {| produced := cards; caught := None; app := st |}
  | player :: rest =>
      match generateCard (world i) player agrasen logo with
      | Rejected e => {| produced := cards; caught := Some e; app := st |}
      | Fulfilled url =>
          let cards := (cards ++ [{| playerId := id player; dataUrl := url;
                                     scoutReport := None |}])%list in
          processLoop world agrasen logo (S i) rest cards (setGeneratedCards cards st)
      end
  end.

(** [handleProcess] of the one-step revision of the component; [parse] is
    the [parseExcelFile] it imports. *)
Definition handleProcess (parse : File -> Promise (list PlayerData))
    (world : nat -> Browser) (st : AppState) : Batch :=
  match excelFile (assets st), present (agrasenImage (assets st)),
        present (logoImage (assets st)) with
  | Some file, Some agrasen, Some logo =>
      let st := setStatus PARSING st in
      match parse file with
      | Rejected e => finish false {| produced := []; caught := Some e; app := st |}
      | Fulfilled parsedPlayers =>
          let st := setPlayers parsedPlayers st in
          let st := setStatus GENERATING st in
          finish false (processLoop world agrasen logo 0 parsedPlayers [] st)
      end
  | _, _, _ => {| produced := []; caught := None; app := st |}
  end.

End App.

(** ** Vocabulary of the properties, and sample inputs *)

Module Spec.
Import JS Canvas CardGenerator ExcelService App.
Local Open Scope string_scope.

(** Measured width of [text] when [ctx.font] is the given weight, size
    and face. *)
Definition widthAt (b : Browser) (text : string) (fontWeight fontFace : string)
    (fontSize : Z) : number :=
  textWidth b (cssFont fontWeight fontSize fontFace) text.

Definition fitsAt (b : Browser) (text : string) (maxWidth : number)
    (fontWeight fontFace : string) (fontSize : Z) : Prop :=
  (widthAt b text fontWeight fontFace fontSize <= maxWidth)%Q.

(** The adaptive-fit property in the words of the specification: the
    chosen size is the largest size, at least the floor, at which the text
    fits, or the floor when there is no such size. *)
Definition largestFittingOrFloor (b : Browser) (text : string) (maxWidth : number)
    (fontWeight fontFace : string) (floor chosen : Z) : Prop :=
  ((exists s, (floor <= s)%Z /\ fitsAt b text maxWidth fontWeight fontFace s) ->
     (floor <= chosen)%Z /\
     fitsAt b text maxWidth fontWeight fontFace chosen /\
     forall s, (floor <= s)%Z -> fitsAt b text maxWidth fontWeight fontFace s ->
               (s <= chosen)%Z)
  /\
  ((~ exists s, (floor <= s)%Z /\ fitsAt b text maxWidth fontWeight fontFace s) ->
     chosen = floor).

(** The painting [drawTextWithFit] ends with: the text filled at its
    anchor, centred, in the given colour, at the font size reached. *)
Definition fittedText (ctx : Ctx) (text : string) (x y : number) (fontSize : Z)
    (fontFace fontWeight color : string) : Paint :=
  {| shape := FillText text x y;
     drawnWith :=
       state (set_font (cssFont fontWeight fontSize fontFace)
                (set_fillStyle (Color color)
                   (set_textBaseline "alphabetic"
                      (set_textAlign "center" ctx)))) |}.

(** The font size [drawTextWithFit] reaches for a text, a width budget,
    an initial size and a font; it does not depend on the context the
    text is drawn in nor on the anchor and colour. *)
Definition chosenSize (b : Browser) (text : string) (maxWidth : number)
    (initialFontSize : Z) (fontFace fontWeight : string) : Z :=
  fst (drawTextWithFit b newContext text 0 0 maxWidth initialFontSize
         fontFace fontWeight "#ffffff").

(** The shield outline on the fixed canvas. *)
Definition shield : Path := path (drawShieldPath newContext CARD_WIDTH CARD_HEIGHT).

(** A painting made while the shield is (part of) the clip region. *)
Definition clippedByShield (p : Paint) : Prop := In shield (clipRegion (drawnWith p)).

(** The image a call of [loadImage] resolves with. *)
Definition resolved (b : Browser) (source : string) : HTMLImageElement :=
  if truthy source && imageLoads b source
  then {| src := source; crossOrigin := Some "anonymous" |}
  else createPlaceholder b.

(** The source [handleForgeCards] hands to the compositor for a player. *)
Definition finalSource (a : CardAssets) (player : PlayerData) : string :=
  orString (getPlayerImageSource a player) "".

(** [rendered render i ps cs]: the cards [cs] are, in order, the
    renderings of the first players of [ps], each keyed by its player's
    [id]; [render j p] is the outcome of the [j]-th composition of the
    batch, and the first player of [ps] is composed as number [i]. *)
Inductive rendered (render : nat -> PlayerData -> Promise string) :
    nat -> list PlayerData -> list GeneratedCard -> Prop :=
| rendered_none (i : nat) (ps : list PlayerData) : rendered render i ps []
| rendered_next (i : nat) (p : PlayerData) (ps : list PlayerData)
    (c : GeneratedCard) (cs : list GeneratedCard) :
    playerId c = id p ->
    render i p = Fulfilled (dataUrl c) ->
    rendered render (S i) ps cs ->
    rendered render i (p :: ps) (c :: cs).

(** The composition [handleForgeCards] makes for a player, as number [i]. *)
Definition forge (world : nat -> Browser) (a : CardAssets) (agrasen logo : string)
    (i : nat) (p : PlayerData) : Promise string :=
  generateCard (world i) (withImageUrl p (finalSource a p)) agrasen logo.

(** The composition [handleProcess] makes for a player, as number [i]. *)
Definition process (world : nat -> Browser) (agrasen logo : string)
    (i : nat) (p : PlayerData) : Promise string :=
  generateCard (world i) p agrasen logo.

(** A text painted at a given position of a card's bitmap by
    [drawTextWithFit]: it is drawn at [chosenSize], where it fits its
    budget unless that size is 14 or less. *)
Definition fittedAt (b : Browser) (canvas : HTMLCanvasElement) (position : nat)
    (text : string) (x y budget : number) (initialFontSize : Z)
    (fontFace fontWeight : string) : Prop :=
  exists p,
    nth_error (bitmap canvas) position = Some p
    /\ shape p = FillText text x y
    /\ font (drawnWith p) =
         cssFont fontWeight (chosenSize b text budget initialFontSize fontFace fontWeight)
           fontFace
    /\ (fitsAt b text budget fontWeight fontFace
           (chosenSize b text budget initialFontSize fontFace fontWeight)
         \/ (chosenSize b text budget initialFontSize fontFace fontWeight <= 14)%Z).

(** A filled rectangle that covers a canvas exactly. *)
Definition coversCanvas (s : Shape) (c : HTMLCanvasElement) : Prop :=
  match s with
  | FillRect x y w h => (x == 0 /\ y == 0 /\ w == width c /\ h == height c)%Q
  | _ => False
  end.

(** A filled rectangle lying strictly inside another one. *)
Definition strictlyInside (inner outer : Shape) : Prop :=
  match inner, outer with
  | FillRect x y w h, FillRect x' y' w' h' =>
      (x' < x /\ y' < y /\ x + w < x' + w' /\ y + h < y' + h')%Q
  | _, _ => False
  end.

(** A text anchored at the centre of a canvas. *)
Definition anchoredAtCentre (s : Shape) (c : HTMLCanvasElement) : Prop :=
  match s with
  | FillText _ x y => (x == width c / 2 /\ y == height c / 2)%Q
  | _ => False
  end.

(** Red, green and blue channels of a colour written [#rrggbb]. *)
Definition hexPair (a c : ascii) : option Z :=
  match digitValue 16 a, digitValue 16 c with
  | Some h, Some l => Some (16 * h + l)%Z
  | _, _ => None
  end.

Definition channels (css : string) : option (Z * Z * Z) :=
  match css with
  | String "#" (String r1 (String r2 (String g1 (String g2
      (String b1 (String b2 EmptyString)))))) =>
      match hexPair r1 r2, hexPair g1 g2, hexPair b1 b2 with
      | Some r, Some g, Some bl => Some (r, g, bl)
      | _, _, _ => None
      end
  | _ => None
  end.

(** A browser with a 2D context in which data URIs load and nothing else
    does, every glyph is half an em wide, and [Math.random] cycles
    through tenths. *)
Definition halfEm : Browser := {|
  getContext2d := true;
  imageLoads := fun s => startsWith "data:" s;
  textWidth := fun f t =>
    (inject_Z (size f) * inject_Z (Z.of_nat (String.length t)) / 2)%js;
  mathRandom := fun n => (inject_Z (Z.of_nat (n mod 10)) / 10)%js;
  toDataURL := fun c => "data:image/png;base64,iVBORw0KGgo="
|}.

(** The same browser when no 2D context can be obtained. *)
Definition noContext : Browser := {|
  getContext2d := false;
  imageLoads := imageLoads halfEm;
  textWidth := textWidth halfEm;
  mathRandom := mathRandom halfEm;
  toDataURL := toDataURL halfEm
|}.

(** The player of the download template. *)
Definition kohli : PlayerData := {|
  id := "player-0";
  name := "Virat Kohli";
  role := "Batsman";
  battingStyle := "Right Handed Bat";
  bowlingStyle := "Right-arm medium";
  formNumber := 96;
  imageUrl := "";
  manualImage := None
|}.

Definition sampleBowler : PlayerData := {|
  id := "player-1";
  name := "Sample Bowler";
  role := "Bowler";
  battingStyle := "Left Handed Bat";
  bowlingStyle := "Left-arm fast";
  formNumber := 88;
  imageUrl := "bowler_1";
  manualImage := None
|}.

(** A bowling style of 38 characters. *)
Definition longStyle : string := "RIGHT-ARM FAST-MEDIUM AND SLOW OFFSPIN".

(** A name of 70 characters. *)
Definition longName : string :=
  "SHRIMAN VENKATANARASIMHARAJUVARIPETA RAMACHANDRA SUBRAMANIAM IYER JNR.".

Definition sampleAssets : CardAssets := {|
  excelFile := None;
  agrasenImage := Some "data:image/png;base64,AAAA";
  logoImage := Some "data:image/png;base64,BBBB";
  localImageMap := []
|}.

(** The component after a roster of two players has been parsed. *)
Definition reviewState : AppState := {|
  assets := sampleAssets;
  players := [kohli; sampleBowler];
  generatedCards := [];
  status := REVIEW;
  errorMessage := None;
  selectedCard := None
|}.

(** A batch in which the first composition gets a context and the
    following ones do not. *)
Definition contextLostAfterFirst (i : nat) : Browser :=
  match i with O => halfEm | S _ => noContext end.

End Spec.

(** ** services/geminiService.ts *)

Module GeminiService.
Import JS CardGenerator App.
Local Open Scope string_scope.

Definition newline : string := String (ascii_of_nat 10) EmptyString.
Definition doubleQuote : string := String (ascii_of_nat 34) EmptyString.

(** What the text-generation service does: the configured key
    ([process.env.API_KEY]) and, for a prompt, the [text] of the response
    ([None] when the response has none) or the error thrown. *)
Record Gemini : Type := {
  apiKey : option string;
  generateContent : string -> Promise (option string)
}.

(** The template literal [prompt] of [getScoutReport]. *)
Definition scoutPrompt (player : PlayerData) : string :=
  newline
  ++ "      Write a short, exciting, sports-commentator style " ++ doubleQuote
  ++ "Scout Report" ++ doubleQuote
  ++ " (max 30 words) for a cricket player with the following stats. " ++ newline
  ++ "      Focus on their form and role. Make it sound like a trading card bio."
  ++ newline
  ++ "      " ++ newline
  ++ "      Name: " ++ name player ++ newline
  ++ "      Role: " ++ role player ++ newline
  ++ "      Batting Style: " ++ battingStyle player ++ newline
  ++ "      Bowling Style: " ++ bowlingStyle player ++ newline
  ++ "      Form Rating (0-90): " ++ toString (formNumber player) ++ newline
  ++ "    ".

(** The value [getScoutReport] resolves with, and the prompts it sent. *)
Record Scouted : Type := {
  report : string;
  sent : list string
}.

Definition getScoutReport (g : Gemini) (player : PlayerData) : Scouted :=
  match present (apiKey g) with
  | None =>
      {| report := "API Key not configured. Unable to generate scout report.";
         sent := [] |}
  | Some _ =>
      let prompt := scoutPrompt player in
      match generateContent g prompt with
      | Fulfilled text =>
          {| report := orString text "No report available."; sent := [prompt] |}
      | Rejected _ =>
          {| report := "Scouting report currently unavailable."; sent := [prompt] |}
      end
  end.

End GeminiService.

(** ** App.tsx, the other handlers *)

Module Handlers.
Import JS Canvas CardGenerator ExcelService App GeminiService.
Local Open Scope string_scope.

(** The property names a plain object inherits from [Object.prototype]:
    [map[key]] finds them whether or not [map] has an entry of its own
    under that name. *)
Definition objectPrototypeKeys : list string :=
  ["constructor"; "hasOwnProperty"; "isPrototypeOf"; "propertyIsEnumerable";
   "toLocaleString"; "toString"; "valueOf"; "__proto__";
   "__defineGetter__"; "__defineSetter__"; "__lookupGetter__"; "__lookupSetter__"].

Definition inherited (key : string) : bool :=
  existsb (String.eqb key) objectPrototypeKeys.

(** The two names [getPlayerImageSource] reads in the map of batch photos
    for a player, the trimmed link and what precedes its first dot, are
    not inherited ones, so that [App.lookup], which searches the map's
    own entries, is what [map[key]] does. *)
Definition readsOwnEntries (player : PlayerData) : Prop :=
  inherited (trim (imageUrl player)) = false
  /\ inherited (beforeFirst "."%char (trim (imageUrl player))) = false.

(** [Number.MAX_SAFE_INTEGER], 2^53 - 1: up to it in absolute value
    integers are exact as doubles, [parseInt] reads them exactly and
    [toString] writes all their digits. *)
Definition MAX_SAFE_INTEGER : Z := 9007199254740991.

Definition setAssets (v : CardAssets) (st : AppState) : AppState :=
  {| assets := v; players := players st; generatedCards := generatedCards st;
     status := status st; errorMessage := errorMessage st; selectedCard := selectedCard st |}.

(** An image file picked by the user. *)
Record ImageFile : Type := {
  fileName : string;
  contents : string
}.

(** What follows the first occurrence of a separator, if there is one. *)
Fixpoint afterFirst (sep : ascii) (s : string) : option string :=
  match s with
  | EmptyString => None
  | String c r => if Ascii.eqb c sep then Some r else afterFirst sep r
  end.

(** [s.split(sep).slice(0, -1).join(sep)]: what precedes the last
    separator, empty when there is none. *)
Definition beforeLast (sep : ascii) (s : string) : string :=
  match afterFirst sep (reverse s) with
  | Some r => reverse r
  | None => ""
  end.

(** [object[key] = value] on an object kept in property order. *)
Fixpoint assign {V : Type} (m : list (string * V)) (key : string) (value : V)
  : list (string * V) :=
  match m with
  | [] => [(key, value)]
  | (k, v) :: rest =>
      if String.eqb k key then (k, value) :: rest else (k, v) :: assign rest key value
  end.

(** [map[key] = value] on a plain object, for a string [value]: under
    the name [__proto__] the assignment reaches the setter inherited from
    [Object.prototype], which ignores a string and creates no entry. *)
Definition setProperty (m : list (string * string)) (key value : string)
  : list (string * string) :=
  if String.eqb key "__proto__" then m else assign m key value.

(** The body of [files.forEach] in [handleBatchImageUpload]. *)
Definition registerFile (createObjectURL : ImageFile -> string)
    (newMap : list (string * string)) (file : ImageFile) : list (string * string) :=
  let objectUrl := createObjectURL file in
  let newMap := setProperty newMap (fileName file) objectUrl in
  let nameWithoutExt := beforeLast "."%char (fileName file) in
  if truthy nameWithoutExt then setProperty newMap nameWithoutExt objectUrl else newMap.

Definition handleBatchImageUpload (createObjectURL : ImageFile -> string)
    (st : AppState) (files : list ImageFile) : AppState :=
  let newMap := fold_left (registerFile createObjectURL) files (localImageMap (assets st)) in
  setAssets {| excelFile := excelFile (assets st);
               agrasenImage := agrasenImage (assets st);
               logoImage := logoImage (assets st);
               localImageMap := newMap |} st.

(** [{ ...p, manualImage: v }] *)
Definition withManualImage (player : PlayerData) (v : string) : PlayerData :=
  {| id := id player; name := name player; role := role player;
     battingStyle := battingStyle player; bowlingStyle := bowlingStyle player;
     formNumber := formNumber player; imageUrl := imageUrl player;
     manualImage := Some v |}.

Definition handleIndividualUpload (createObjectURL : ImageFile -> string)
    (st : AppState) (playerId : string) (file : ImageFile) : AppState :=
  let objectUrl := createObjectURL file in
  setPlayers
    (map (fun p => if String.eqb (id p) playerId then withManualImage p objectUrl else p)
       (players st))
    st.

Definition handleParseData (st : AppState) : AppState :=
  match excelFile (assets st) with
  | None => st
  | Some file =>
      let st := setStatus PARSING st in
      let st := setErrorMessage None st in
      match parseExcelFile file with
      | Fulfilled parsedPlayers =>
          let st := setPlayers parsedPlayers st in
          setStatus REVIEW st
      | Rejected e =>
          let st := setStatus ERROR st in
          setErrorMessage (Some e) st
      end
  end.

(** [{ ...c, scoutReport: v }] *)
Definition withScoutReport (c : GeneratedCard) (v : string) : GeneratedCard :=
  {| playerId := playerId c; dataUrl := dataUrl c; scoutReport := Some v |}.

(** [handleGenerateScoutReport]: the state it leaves and the prompts
    sent to the service.  The [scouting] flag, raised during the call and
    lowered at its end, is not part of [AppState]. *)
Definition handleGenerateScoutReport (g : Gemini) (st : AppState)
  : AppState * list string :=
  match selectedCard st with
  | None => (st, [])
  | Some selected =>
      match find (fun p => String.eqb (id p) (playerId selected)) (players st) with
      | None => (st, [])
      | Some player =>
          let scouted := getScoutReport g player in
          let updatedCards :=
            map (fun c => if String.eqb (playerId c) (playerId selected)
                          then withScoutReport c (report scouted) else c)
              (generatedCards st) in
          let st := setGeneratedCards updatedCards st in
          let updatedSelected :=
            find (fun c => String.eqb (playerId c) (playerId selected)) updatedCards in
          let st := match updatedSelected with
                    | Some c => setSelectedCard (Some c) st
                    | None => st
                    end in
          (st, sent scouted)
      end
  end.

Definition isAlphaNumeric (c : ascii) : bool :=
  let n := nat_of_ascii c in
  (((48 <=? n) && (n <=? 57)) || ((65 <=? n) && (n <=? 90))
   || ((97 <=? n) && (n <=? 122)))%nat.

(** [s.replace(/[^a-z0-9]/gi, '_')] *)
Definition sanitize (s : string) : string :=
  mapChars (fun c => if isAlphaNumeric c then c else "_"%char) s.

(** [s.split(',')[1]], [None] standing for [undefined]. *)
Definition secondField (s : string) : option string :=
  match afterFirst ","%char s with
  | Some r => Some (beforeFirst ","%char r)
  | None => None
  end.

(** The file name [handleDownloadZip] gives to a card. *)
Definition zipFileName (ps : list PlayerData) (card : GeneratedCard) : string :=
  let player := find (fun p => String.eqb (id p) (playerId card)) ps in
  orString (option_map (fun p => sanitize (name p)) player) "card" ++ ".png".

(** The archive built by [handleDownloadZip]: its entries, name and
    base64 data, in the order [zip.file] created them. *)
Definition handleDownloadZip (st : AppState) : list (string * option string) :=
  fold_left
    (fun zip card => assign zip (zipFileName (players st) card) (secondField (dataUrl card)))
    (generatedCards st) [].

(** Anchors of the texts among a list of shapes. *)
Fixpoint textAnchors (l : list Shape) : list (number * number) :=
  match l with
  | [] => []
  | FillText _ x y :: r => (x, y) :: textAnchors r
  | _ :: r => textAnchors r
  end.

(** Destination rectangles of the images among a list of shapes. *)
Fixpoint imageBoxes (l : list Shape) : list (number * number * number * number) :=
  match l with
  | [] => []
  | DrawImage _ x y w h :: r => (x, y, w, h) :: imageBoxes r
  | _ :: r => imageBoxes r
  end.

(** The images drawn among a list of shapes, in order. *)
Fixpoint imagesDrawn (l : list Shape) : list HTMLImageElement :=
  match l with
  | [] => []
  | DrawImage img _ _ _ _ :: r => img :: imagesDrawn r
  | _ :: r => imagesDrawn r
  end.

(** A painting other than a stroke made at full opacity. *)
Definition opaqueUnlessStroke (p : Paint) : Prop :=
  match shape p with
  | StrokePath _ => True
  | _ => globalAlpha (drawnWith p) = 1%Q
  end.

(** What may follow the digits of a number for [parseInt] to stop there:
    nothing, or a character that is not a decimal digit. *)
Definition stopsDigits (suffix : string) : Prop :=
  match suffix with
  | EmptyString => True
  | String c _ => digitValue 10 c = None
  end.

(** The circle the organisation portrait is clipped to. *)
Definition portraitCircle : Path := [Arc 115 305 35 0 2; ClosePath]%Q.

(** A service with a key that answers every prompt with the same text. *)
Definition chatty : Gemini := {|
  apiKey := Some "key";
  generateContent := fun _ => Fulfilled (Some "In red-hot form.")
|}.

(** Object URLs as a browser could hand them out. *)
Definition blobUrl (file : ImageFile) : string := "blob:" ++ fileName file.

End Handlers.

(* ===================================================================== *)
(** * Part II. Properties *)
(* ===================================================================== *)

Unset Implicit Arguments.

(** ** The adaptive text fit *)

Module TextFit.
Import JS Canvas CardGenerator Spec.
Local Open Scope Z_scope.

Lemma shrinkLoop_unfold b text maxWidth fontWeight fontFace fontSize ctx :
  shrinkLoop b text maxWidth fontWeight fontFace fontSize ctx =
  if tooWide b text maxWidth fontSize ctx
  then shrinkLoop b text maxWidth fontWeight fontFace (fontSize - 2)
         (set_font (cssFont fontWeight (fontSize - 2) fontFace) ctx)
  else (fontSize, ctx).
Proof.
  funelim (shrinkLoop b text maxWidth fontWeight fontFace fontSize ctx);
    rewrite e; reflexivity.
Qed.

Lemma set_font_same f ctx : font (state ctx) = f -> set_font f ctx = ctx.
Proof.
  destruct ctx as [[] ? ? ?]; simpl; intros <-; reflexivity.
Qed.

Lemma set_font_twice f g ctx : set_font g (set_font f ctx) = set_font g ctx.
Proof. reflexivity. Qed.

Lemma tooWide_spec b text maxWidth fontWeight fontFace fontSize ctx :
  font (state ctx) = cssFont fontWeight fontSize fontFace ->
  tooWide b text maxWidth fontSize ctx =
  gt (widthAt b text fontWeight fontFace fontSize) maxWidth && (14 <? fontSize).
Proof.
  unfold tooWide, measureText, widthAt. intros ->. reflexivity.
Qed.

(** The run of the loop: it makes some number [k] of iterations, each
    entered with a text that is too wide at a size above 14, and leaves
    at the size [fontSize - 2k], where the text fits or the size is at
    most 14.  The only thing the loop changes in the context is the font. *)
Lemma shrinkLoop_run b text maxWidth fontWeight fontFace :
  forall (n : nat) fontSize ctx,
    Z.to_nat (fontSize - 14) = n ->
    font (state ctx) = cssFont fontWeight fontSize fontFace ->
    exists k : nat,
      shrinkLoop b text maxWidth fontWeight fontFace fontSize ctx =
        (fontSize - 2 * Z.of_nat k,
         set_font (cssFont fontWeight (fontSize - 2 * Z.of_nat k) fontFace) ctx)
      /\ (forall j : nat, (j < k)%nat ->
            gt (widthAt b text fontWeight fontFace (fontSize - 2 * Z.of_nat j)) maxWidth = true
            /\ 14 < fontSize - 2 * Z.of_nat j)
      /\ (gt (widthAt b text fontWeight fontFace (fontSize - 2 * Z.of_nat k)) maxWidth = false
          \/ fontSize - 2 * Z.of_nat k <= 14).
Proof.
  induction n as [n IH] using lt_wf_ind. intros fontSize ctx Hn Hfont.
  rewrite shrinkLoop_unfold, (tooWide_spec b text maxWidth _ _ _ ctx Hfont).
  destruct (gt (widthAt b text fontWeight fontFace fontSize) maxWidth) eqn:Hw;
    [destruct (14 <? fontSize) eqn:Hs|]; cbn [andb].
  - apply Z.ltb_lt in Hs.
    destruct (IH (Z.to_nat (fontSize - 2 - 14)) ltac:(lia) (fontSize - 2)
                (set_font (cssFont fontWeight (fontSize - 2) fontFace) ctx)
                eq_refl eq_refl) as (k & Hrun & Hbefore & Hstop).
    exists (S k).
    replace (fontSize - 2 * Z.of_nat (S k)) with (fontSize - 2 - 2 * Z.of_nat k) by lia.
    rewrite Hrun, set_font_twice. split; [reflexivity|]. split; [|exact Hstop].
    intros [|j] Hj.
    + replace (fontSize - 2 * Z.of_nat 0) with fontSize by lia. auto.
    + replace (fontSize - 2 * Z.of_nat (S j)) with (fontSize - 2 - 2 * Z.of_nat j) by lia.
      apply Hbefore. lia.
  - apply Z.ltb_ge in Hs. exists 0%nat.
    replace (fontSize - 2 * Z.of_nat 0) with fontSize by lia.
    rewrite (set_font_same _ ctx Hfont). split; [reflexivity|]. split; [lia|]. right. exact Hs.
  - exists 0%nat.
    replace (fontSize - 2 * Z.of_nat 0) with fontSize by lia.
    rewrite (set_font_same _ ctx Hfont). split; [reflexivity|]. split; [lia|]. left. exact Hw.
Qed.

(** [drawTextWithFit] as a whole: the size it returns, and the one
    painting it adds to an otherwise unchanged context. *)
Lemma drawTextWithFit_run b ctx text x y maxWidth initialFontSize fontFace fontWeight color :
  exists k : nat,
    drawTextWithFit b ctx text x y maxWidth initialFontSize fontFace fontWeight color =
      (initialFontSize - 2 * Z.of_nat k,
       record (fittedText ctx text x y (initialFontSize - 2 * Z.of_nat k)
                 fontFace fontWeight color) ctx)
    /\ (forall j : nat, (j < k)%nat ->
          gt (widthAt b text fontWeight fontFace (initialFontSize - 2 * Z.of_nat j)) maxWidth = true
          /\ 14 < initialFontSize - 2 * Z.of_nat j)
    /\ (gt (widthAt b text fontWeight fontFace (initialFontSize - 2 * Z.of_nat k)) maxWidth = false
        \/ initialFontSize - 2 * Z.of_nat k <= 14).
Proof.
  unfold drawTextWithFit.
  destruct (shrinkLoop_run b text maxWidth fontWeight fontFace
              (Z.to_nat (initialFontSize - 14)) initialFontSize
              (set_font (cssFont fontWeight initialFontSize fontFace)
                 (set_fillStyle (Color color)
                    (set_textBaseline "alphabetic"
                       (set_textAlign "center" (save ctx)))))
              eq_refl eq_refl) as (k & Hrun & Hbefore & Hstop).
  exists k. rewrite Hrun. split; [reflexivity|]. split; assumption.
Qed.

(** The number of iterations is determined by the widths alone. *)
Lemma stop_unique b text maxWidth fontWeight fontFace fontSize (k k' : nat) :
  (forall j : nat, (j < k)%nat ->
     gt (widthAt b text fontWeight fontFace (fontSize - 2 * Z.of_nat j)) maxWidth = true
     /\ 14 < fontSize - 2 * Z.of_nat j) ->
  (gt (widthAt b text fontWeight fontFace (fontSize - 2 * Z.of_nat k)) maxWidth = false
   \/ fontSize - 2 * Z.of_nat k <= 14) ->
  (forall j : nat, (j < k')%nat ->
     gt (widthAt b text fontWeight fontFace (fontSize - 2 * Z.of_nat j)) maxWidth = true
     /\ 14 < fontSize - 2 * Z.of_nat j) ->
  (gt (widthAt b text fontWeight fontFace (fontSize - 2 * Z.of_nat k')) maxWidth = false
   \/ fontSize - 2 * Z.of_nat k' <= 14) ->
  k = k'.
Proof.
  intros Hb Hs Hb' Hs'.
  destruct (Nat.lt_trichotomy k k') as [Hlt|[Heq|Hlt]]; [|exact Heq|]; exfalso.
  - destruct (Hb' k Hlt) as [Hw Hsz]. destruct Hs as [Hf|Hle]; [congruence|lia].
  - destruct (Hb k' Hlt) as [Hw Hsz]. destruct Hs' as [Hf|Hle]; [congruence|lia].
Qed.

(** [drawTextWithFit] returns [chosenSize] and adds one painting. *)
Lemma drawTextWithFit_eq b ctx text x y maxWidth initialFontSize fontFace fontWeight color :
  drawTextWithFit b ctx text x y maxWidth initialFontSize fontFace fontWeight color =
  (chosenSize b text maxWidth initialFontSize fontFace fontWeight,
   record (fittedText ctx text x y
             (chosenSize b text maxWidth initialFontSize fontFace fontWeight)
             fontFace fontWeight color) ctx).
Proof.
  unfold chosenSize.
  destruct (drawTextWithFit_run b ctx text x y maxWidth initialFontSize
              fontFace fontWeight color) as (k & -> & Hb & Hs).
  destruct (drawTextWithFit_run b newContext text 0%Q 0%Q maxWidth initialFontSize
              fontFace fontWeight "#ffffff") as (k' & -> & Hb' & Hs').
  cbn [fst].
  rewrite (stop_unique b text maxWidth fontWeight fontFace initialFontSize k k' Hb Hs Hb' Hs').
  reflexivity.
Qed.

Lemma fits_iff b text maxWidth fontWeight fontFace s :
  gt (widthAt b text fontWeight fontFace s) maxWidth = false <->
  fitsAt b text maxWidth fontWeight fontFace s.
Proof.
  unfold fitsAt, gt. rewrite negb_false_iff. apply Qle_bool_iff.
Qed.

Lemma overflows_iff b text maxWidth fontWeight fontFace s :
  gt (widthAt b text fontWeight fontFace s) maxWidth = true <->
  ~ fitsAt b text maxWidth fontWeight fontFace s.
Proof.
  rewrite <- fits_iff. destruct (gt _ _); split; congruence.
Qed.

(** C1, as amended.  The size chosen by [drawTextWithFit] is the largest
    member of the sequence [initialFontSize], [initialFontSize - 2],
    [initialFontSize - 4], ... at which the text fits or which is at most
    14: it is a member of the sequence, it fits or is at most 14, and at
    every larger member the text overflows and the size exceeds 14. *)
Theorem chosen_size_is_first_stop
    b ctx text x y maxWidth initialFontSize fontFace fontWeight color :
  let chosen :=
    fst (drawTextWithFit b ctx text x y maxWidth initialFontSize fontFace fontWeight color) in
  exists k : nat,
    chosen = initialFontSize - 2 * Z.of_nat k
    /\ (forall j : nat, (j < k)%nat ->
          ~ fitsAt b text maxWidth fontWeight fontFace (initialFontSize - 2 * Z.of_nat j)
          /\ 14 < initialFontSize - 2 * Z.of_nat j)
    /\ (fitsAt b text maxWidth fontWeight fontFace chosen \/ chosen <= 14).
Proof.
  destruct (drawTextWithFit_run b ctx text x y maxWidth initialFontSize
              fontFace fontWeight color) as (k & Hrun & Hbefore & Hstop).
  cbv zeta. rewrite Hrun. cbn [fst]. exists k. split; [reflexivity|]. split.
  - intros j Hj. destruct (Hbefore j Hj) as [Hw Hs]. split; [|exact Hs].
    apply overflows_iff. exact Hw.
  - destruct Hstop as [Hw|Hs]; [left; apply fits_iff; exact Hw | right; exact Hs].
Qed.

(** C1, as stated, fails.  In a browser where every glyph is half an em
    wide, a 38-character bowling style drawn by the third stat row
    (budget 440, initial size 24) overflows at 24 (456) and is drawn at
    22, although it also fits at 23 (437): the size chosen is not the
    largest fitting size. *)
Lemma chosen_size_not_largest_fitting :
  ~ largestFittingOrFloor halfEm longStyle 440%Q "600" "Montserrat" 14
      (fst (drawTextWithFit halfEm newContext longStyle 300%Q 731%Q 440%Q 24
              "Montserrat" "600" "#ffffff")).
Proof.
  assert (Hchosen : fst (drawTextWithFit halfEm newContext longStyle 300%Q 731%Q 440%Q 24
                           "Montserrat" "600" "#ffffff") = 22) by (vm_compute; reflexivity).
  rewrite Hchosen. intros [Hlargest _].
  assert (H23 : fitsAt halfEm longStyle 440%Q "600" "Montserrat" 23).
  { unfold fitsAt. vm_compute. discriminate. }
  destruct Hlargest as (_ & _ & Hmax).
  - exists 23. split; [lia | exact H23].
  - specialize (Hmax 23 ltac:(lia) H23). lia.
Qed.

(** At the size chosen, the text fits unless the size is 14 or less. *)
Lemma chosenSize_fits_or_floor b text maxWidth initialFontSize fontFace fontWeight :
  fitsAt b text maxWidth fontWeight fontFace
    (chosenSize b text maxWidth initialFontSize fontFace fontWeight)
  \/ chosenSize b text maxWidth initialFontSize fontFace fontWeight <= 14.
Proof.
  unfold chosenSize.
  destruct (drawTextWithFit_run b newContext text 0%Q 0%Q maxWidth initialFontSize
              fontFace fontWeight "#ffffff") as (k & -> & _ & Hstop).
  cbn [fst].
  destruct Hstop as [Hw|Hs]; [left; apply fits_iff; exact Hw | right; exact Hs].
Qed.

(** C2, as stated, fails.  In the half-em browser a 70-character name
    (budget 600 - 120 = 480, initial size 60) is shrunk down to 14 and
    drawn there, where it still measures 490. *)
Lemma long_name_overflows :
  let chosen :=
    fst (drawTextWithFit halfEm newContext (toUpperCase longName) (CARD_WIDTH / 2%Q)%js 530%Q
           (CARD_WIDTH - 120%Q)%js 60 "Bebas Neue" "400" "#ffd700") in
  chosen = 14
  /\ ~ fitsAt halfEm (toUpperCase longName) (CARD_WIDTH - 120%Q)%js "400" "Bebas Neue" chosen.
Proof.
  cbv zeta.
  assert (Hchosen :
    fst (drawTextWithFit halfEm newContext (toUpperCase longName) (CARD_WIDTH / 2%Q)%js 530%Q
           (CARD_WIDTH - 120%Q)%js 60 "Bebas Neue" "400" "#ffd700") = 14)
    by (vm_compute; reflexivity).
  rewrite Hchosen. split; [reflexivity|].
  unfold fitsAt. vm_compute. intros H. apply H. reflexivity.
Qed.

(** C9.  The loop of [drawTextWithFit] terminates: an iteration is only
    entered at a size above 14 and takes 2 off the size, so the natural
    number [fontSize - 14] decreases at every iteration (this is the
    measure [shrinkLoop] is defined by recursion on), and the loop ends
    after a number [k] of iterations with [2k <= max 0 (initialFontSize -
    13)].  The size returned is [initialFontSize - 2k], so it is at least
    [min initialFontSize 13] and at most the initial size.  An odd initial
    size can end at 13: 15 does, for a text too wide at every size. *)
Theorem shrink_loop_ends_above_13
    b ctx text x y maxWidth initialFontSize fontFace fontWeight color :
  let chosen :=
    fst (drawTextWithFit b ctx text x y maxWidth initialFontSize fontFace fontWeight color) in
  (forall fontSize c,
     tooWide b text maxWidth fontSize c = true ->
     14 < fontSize /\ (Z.to_nat (fontSize - 2 - 14) < Z.to_nat (fontSize - 14))%nat)
  /\ (exists k : nat,
        chosen = initialFontSize - 2 * Z.of_nat k
        /\ 2 * Z.of_nat k <= Z.max 0 (initialFontSize - 13))
  /\ Z.min initialFontSize 13 <= chosen <= initialFontSize
  /\ fst (drawTextWithFit halfEm ctx longName x y 0%Q 15 fontFace fontWeight color) = 13.
Proof.
  destruct (drawTextWithFit_run b ctx text x y maxWidth initialFontSize
              fontFace fontWeight color) as (k & Hrun & Hbefore & _).
  cbv zeta. rewrite Hrun. cbn [fst].
  assert (Hk : 2 * Z.of_nat k <= Z.max 0 (initialFontSize - 13)).
  { destruct k as [|k]; [lia|].
    destruct (Hbefore k ltac:(lia)) as [_ Hs]. lia. }
  split.
  { intros fontSize c Hguard. unfold tooWide in Hguard.
    apply andb_prop in Hguard. destruct Hguard as [_ Hs]. apply Z.ltb_lt in Hs. lia. }
  split; [exists k; split; [reflexivity | exact Hk]|].
  split; [lia|].
  destruct (drawTextWithFit_run halfEm ctx longName x y 0%Q 15
              fontFace fontWeight color) as (k' & Hrun' & Hbefore' & Hstop').
  rewrite Hrun'. cbn [fst].
  assert (Hover : forall s, 0 < s ->
            gt (widthAt halfEm longName fontWeight fontFace s) 0%Q = true).
  { intros s Hs. unfold gt, widthAt, halfEm, cssFont. cbn [textWidth size].
    apply negb_true_iff. destruct (Qle_bool _ _) eqn:E; [|reflexivity].
    apply Qle_bool_iff in E. exfalso.
    unfold JS.div, JS.mul in E. rewrite !Qred_correct in E.
    assert (0 < inject_Z s * inject_Z (Z.of_nat (String.length longName)) / 2)%Q.
    { apply Qlt_shift_div_l; [reflexivity|]. rewrite Qmult_0_l.
      apply Qmult_lt_0_compat.
      - change 0%Q with (inject_Z 0). rewrite <- Zlt_Qlt. exact Hs.
      - reflexivity. }
    apply (Qlt_irrefl 0). eapply Qlt_le_trans; eauto. }
  assert (Hk' : (k' = 1)%nat).
  { destruct k' as [|[|k']].
    - exfalso. destruct Hstop' as [Hw|Hs]; [|cbn in Hs; lia].
      rewrite Hover in Hw by (cbn; lia). discriminate.
    - reflexivity.
    - exfalso. destruct (Hbefore' 1%nat ltac:(lia)) as [_ Hs]. cbn in Hs. lia. }
  subst k'. reflexivity.
Qed.

End TextFit.

(** ** The asset resolver *)

Module Resolver.
Import JS Canvas CardGenerator Spec.
Local Open Scope string_scope.
Local Open Scope Q_scope.

Lemma loadImage_resolves b source :
  promise (loadImage b source) = Fulfilled (resolved b source).
Proof.
  unfold loadImage, resolved.
  destruct (truthy source); cbn [negb andb]; [destruct (imageLoads b source)|]; reflexivity.
Qed.

(** C3.  Whatever the source and whatever the browser does with it, the
    promise of [loadImage] is fulfilled, never rejected.  For an empty
    source it is fulfilled with the placeholder and no image is
    requested; for a source whose load fails ([onerror]) it is fulfilled
    with the placeholder too. *)
Theorem loadImage_never_rejects b source :
  (exists img, promise (loadImage b source) = Fulfilled img)
  /\ (forall reason, promise (loadImage b source) <> Rejected reason)
  /\ (source = "" ->
        promise (loadImage b source) = Fulfilled (createPlaceholder b)
        /\ forall s, ~ In (RequestImage s) (effects (loadImage b source)))
  /\ (source <> "" -> imageLoads b source = false ->
        promise (loadImage b source) = Fulfilled (createPlaceholder b)).
Proof.
  rewrite loadImage_resolves. split; [eexists; reflexivity|].
  split; [discriminate|]. split.
  - intros ->. split; [reflexivity|].
    intros s [H|[]]. discriminate.
  - intros Hne Hfail. unfold resolved. rewrite Hfail, andb_false_r. reflexivity.
Qed.

Lemma loadImage_never_rejects_witness :
  promise (loadImage halfEm "") = Fulfilled (createPlaceholder halfEm)
  /\ (forall s, ~ In (RequestImage s) (effects (loadImage halfEm "")))
  /\ "bowler_1" <> ""
  /\ imageLoads halfEm "bowler_1" = false
  /\ promise (loadImage halfEm "bowler_1") = Fulfilled (createPlaceholder halfEm).
Proof.
  destruct (loadImage_never_rejects halfEm "") as (_ & _ & Hempty & _).
  destruct (Hempty eq_refl) as [Hplaceholder Hnoload].
  destruct (loadImage_never_rejects halfEm "bowler_1") as (_ & _ & _ & Hfail).
  assert (Hne : "bowler_1" <> "") by discriminate.
  split; [exact Hplaceholder|]. split; [exact Hnoload|]. split; [exact Hne|].
  split; [reflexivity|]. exact (Hfail Hne eq_refl).
Defined.

(** C8.  The placeholder is drawn locally and its source is the encoding
    of that drawing, not a URL to fetch: a 400 by 400 canvas.  When the
    browser yields a 2D context for it there are painted, in this order,
    a rectangle of colour #2a0e45 covering the whole canvas, a rectangle
    of colour #4a1d6e lying strictly inside it, and the text NO IMAGE,
    bold, centred on the middle of the canvas; when it yields none,
    nothing is painted and the placeholder is the encoding of the blank
    canvas.  Both colours are purples (blue above red above green) and
    the inner one is lighter in every channel. *)
Theorem placeholder_is_procedural b :
  src (createPlaceholder b) = toDataURL b (placeholderCanvas b)
  /\ width (placeholderCanvas b) = 400 /\ height (placeholderCanvas b) = 400
  /\ (getContext2d b = true ->
      exists outer inner label,
        bitmap (placeholderCanvas b) = [outer; inner; label]
        /\ shape outer = FillRect 0 0 400 400
        /\ coversCanvas (shape outer) (placeholderCanvas b)
        /\ fillStyle (drawnWith outer) = Color "#2a0e45"
        /\ shape inner = FillRect 20 20 360 360
        /\ strictlyInside (shape inner) (shape outer)
        /\ fillStyle (drawnWith inner) = Color "#4a1d6e"
        /\ shape label = FillText "NO IMAGE" 200 200
        /\ anchoredAtCentre (shape label) (placeholderCanvas b)
        /\ weight (font (drawnWith label)) = "bold"
        /\ textAlign (drawnWith label) = "center"
        /\ textBaseline (drawnWith label) = "middle")
  /\ (getContext2d b = false -> bitmap (placeholderCanvas b) = [])
  /\ (exists ro go bo ri gi bi,
        channels "#2a0e45" = Some (ro, go, bo)
        /\ channels "#4a1d6e" = Some (ri, gi, bi)
        /\ (ro < ri /\ go < gi /\ bo < bi)%Z
        /\ (go < ro < bo /\ gi < ri < bi)%Z).
Proof.
  split; [reflexivity|]. split; [reflexivity|]. split; [reflexivity|].
  split; [|split].
  - intros Hctx. unfold placeholderCanvas. rewrite Hctx. cbn.
    do 3 eexists. split; [reflexivity|]. cbn. repeat split; reflexivity.
  - intros Hctx. unfold placeholderCanvas. rewrite Hctx. reflexivity.
  - exists 42%Z, 14%Z, 69%Z, 74%Z, 29%Z, 110%Z.
    split; [reflexivity|]. split; [reflexivity|]. lia.
Qed.

Lemma placeholder_is_procedural_witness :
  getContext2d halfEm = true
  /\ src (createPlaceholder halfEm) = toDataURL halfEm (placeholderCanvas halfEm)
  /\ width (placeholderCanvas halfEm) = 400
  /\ height (placeholderCanvas halfEm) = 400
  /\ map shape (bitmap (placeholderCanvas halfEm)) =
       [FillRect 0 0 400 400; FillRect 20 20 360 360; FillText "NO IMAGE" 200 200].
Proof.
  destruct (placeholder_is_procedural halfEm) as (Hsrc & Hw & Hh & Hdrawn & _ & _).
  destruct (Hdrawn eq_refl)
    as (outer & inner & label & Hlog & Ho & _ & _ & Hi & _ & _ & Hl & _).
  split; [reflexivity|]. split; [exact Hsrc|]. split; [exact Hw|]. split; [exact Hh|].
  rewrite Hlog. cbn [map]. rewrite Ho, Hi, Hl. reflexivity.
Defined.

(** C8, as stated, fails.  In a browser that yields no 2D context the
    guard [if (ctx)] skips the drawing: the placeholder [loadImage]
    resolves with for an empty source is the encoding of a 400 by 400
    canvas on which nothing has been painted, neither rectangle nor
    text. *)
Lemma placeholder_blank_without_context :
  getContext2d noContext = false
  /\ promise (loadImage noContext "") = Fulfilled (createPlaceholder noContext)
  /\ src (createPlaceholder noContext) = toDataURL noContext (placeholderCanvas noContext)
  /\ width (placeholderCanvas noContext) = 400
  /\ height (placeholderCanvas noContext) = 400
  /\ bitmap (placeholderCanvas noContext) = []
  /\ ~ (exists outer inner label,
          bitmap (placeholderCanvas noContext) = [outer; inner; label]).
Proof.
  repeat (split; [reflexivity|]).
  intros (outer & inner & label & H). discriminate H.
Qed.

End Resolver.

(** ** The shield outline *)

Module Shield.
Import JS Canvas CardGenerator Spec.
Local Open Scope Q_scope.

Lemma drawShieldPath_path ctx w h :
  path (drawShieldPath ctx w h) =
  [MoveTo (w * 0.1)%js (h * 0.1)%js;
   LineTo (w * 0.9)%js (h * 0.1)%js;
   LineTo (w * 0.9)%js (h * 0.7)%js;
   QuadraticCurveTo (w * 0.9)%js (h * 0.85)%js (w * 0.5)%js (h * 0.95)%js;
   QuadraticCurveTo (w * 0.1)%js (h * 0.85)%js (w * 0.1)%js (h * 0.7)%js;
   ClosePath].
Proof. reflexivity. Qed.

(** C6.  On the 600 by 850 canvas, whatever path the context held
    before, [drawShieldPath] leaves the outline made of: the top edge
    from (60, 85) to (540, 85), at 10% of the height; the right side down
    to (540, 595), at 90% of the width and 70% of the height; a quadratic
    curve to the apex (300, 807.5), at 50% of the width and 95% of the
    height; a second quadratic curve from the apex up to (60, 595); and
    the left side back to the start.  The outline is closed. *)
Theorem shield_outline ctx :
  let p := path (drawShieldPath ctx CARD_WIDTH CARD_HEIGHT) in
  p = [MoveTo 60 85; LineTo 540 85; LineTo 540 595;
       QuadraticCurveTo 540 (1445 # 2) 300 (1615 # 2);
       QuadraticCurveTo 60 (1445 # 2) 60 595;
       ClosePath]
  /\ segments p =
       [Straight (60, 85) (540, 85);
        Straight (540, 85) (540, 595);
        Quadratic (540, 595) (540, 1445 # 2) (300, 1615 # 2);
        Quadratic (300, 1615 # 2) (60, 1445 # 2) (60, 595);
        Straight (60, 595) (60, 85)]
  /\ closed (segments p)
  /\ (85 == 10 / 100 * CARD_HEIGHT /\ 60 == 10 / 100 * CARD_WIDTH
      /\ 540 == 90 / 100 * CARD_WIDTH /\ 595 == 70 / 100 * CARD_HEIGHT
      /\ 300 == 50 / 100 * CARD_WIDTH /\ (1615 # 2) == 95 / 100 * CARD_HEIGHT
      /\ (1445 # 2) == 85 / 100 * CARD_HEIGHT).
Proof.
  cbv zeta. rewrite drawShieldPath_path.
  split; [reflexivity|]. split; [reflexivity|]. split.
  - cbn. repeat split; reflexivity.
  - repeat split; reflexivity.
Qed.

End Shield.

(** ** The composition pipeline *)

Module Composition.
Import JS Canvas CardGenerator Spec.
Local Open Scope string_scope.
Local Open Scope Q_scope.

Lemma composeCanvas_settles b player agrasenUrl logoUrl :
  composeCanvas b player agrasenUrl logoUrl =
  if getContext2d b then
    Fulfilled {| width := CARD_WIDTH;
                 height := CARD_HEIGHT;
                 bitmap := painted (drawCard b player (resolved b (imageUrl player))
                                      (resolved b agrasenUrl) (resolved b logoUrl)
                                      newContext) |}
  else Rejected "Could not get canvas context".
Proof.
  unfold composeCanvas. rewrite !Resolver.loadImage_resolves. reflexivity.
Qed.

Lemma composeCanvas_bitmap b player agrasenUrl logoUrl canvas :
  composeCanvas b player agrasenUrl logoUrl = Fulfilled canvas ->
  getContext2d b = true
  /\ width canvas = CARD_WIDTH /\ height canvas = CARD_HEIGHT
  /\ bitmap canvas =
       painted (drawCard b player (resolved b (imageUrl player))
                  (resolved b agrasenUrl) (resolved b logoUrl) newContext).
Proof.
  rewrite composeCanvas_settles. destruct (getContext2d b); [|discriminate].
  intros [= <-]. repeat split; reflexivity.
Qed.

Lemma generateCard_settles b player agrasenUrl logoUrl :
  (getContext2d b = true ->
     exists url, generateCard b player agrasenUrl logoUrl = Fulfilled url)
  /\ (getContext2d b = false ->
     generateCard b player agrasenUrl logoUrl = Rejected "Could not get canvas context").
Proof.
  unfold generateCard. rewrite composeCanvas_settles.
  split; intros ->; [eexists|]; reflexivity.
Qed.

(** Symbolic run of [drawCard]: the calls of [drawTextWithFit] are replaced
    by the painting they add, then the context operations are evaluated. *)
Ltac run_card :=
  unfold drawCard, drawClipped, drawStat;
  rewrite !TextFit.drawTextWithFit_eq;
  cbn -[chosenSize JS.add JS.sub JS.mul JS.div toUpperCase substring0 ratingText
        CARD_WIDTH CARD_HEIGHT].

(** The shapes painted on a card, in order: only the texts, the images
    and the end points of the texture lines depend on the inputs. *)
Lemma drawCard_shapes b player playerImg agrasenImg logoImg :
  map shape (painted (drawCard b player playerImg agrasenImg logoImg newContext)) =
  [FillRect 0 0 600 850;
   StrokePath [MoveTo (mathRandom b 0 * 600)%js 0; LineTo (mathRandom b 1 * 600)%js 850];
   StrokePath [MoveTo (mathRandom b 2 * 600)%js 0; LineTo (mathRandom b 3 * 600)%js 850];
   StrokePath [MoveTo (mathRandom b 4 * 600)%js 0; LineTo (mathRandom b 5 * 600)%js 850];
   StrokePath [MoveTo (mathRandom b 6 * 600)%js 0; LineTo (mathRandom b 7 * 600)%js 850];
   StrokePath [MoveTo (mathRandom b 8 * 600)%js 0; LineTo (mathRandom b 9 * 600)%js 850];
   DrawImage playerImg 130 135 440 440;
   FillRect 0 455 600 140;
   FillText (ratingText player) 115 160;
   FillText (toUpperCase (substring0 3 (role player))) 115 200;
   StrokePath [MoveTo 85 230; LineTo 145 230];
   DrawImage agrasenImg 80 270 70 70;
   StrokePath [Arc 115 305 35 0 2];
   DrawImage logoImg 80 360 70 70;
   FillText (toUpperCase (name player)) 300 530;
   StrokePath [MoveTo 120 560; LineTo 480 560];
   FillText "ROLE" 300 585;
   FillText (toUpperCase (role player)) 300 615;
   StrokePath [MoveTo 120 618; LineTo 480 618];
   FillText "BATTING" 300 643;
   FillText (toUpperCase (battingStyle player)) 300 673;
   StrokePath [MoveTo 120 676; LineTo 480 676];
   FillText "BOWLING" 300 701;
   FillText (toUpperCase (bowlingStyle player)) 300 731;
   StrokePath shield;
   StrokePath shield].
Proof.
  run_card. reflexivity.
Qed.

(** C2, as amended.  [drawTextWithFit] paints the text once, at the size
    it returns, and at that size the text fits the maximum width unless
    the size is 14 or less, where shrinking stops whether or not the text
    fits.  On a card this holds of the five fitted texts: the rating
    (budget 100, from size 80), the name (budget 600 - 120, from 60) and
    the three stat values (budget 600 - 160, from 24). *)
Theorem fitted_text_fits_or_floor b :
  (forall ctx text x y maxWidth initialFontSize fontFace fontWeight color,
     let r := drawTextWithFit b ctx text x y maxWidth initialFontSize
                fontFace fontWeight color in
     snd r = record (fittedText ctx text x y (fst r) fontFace fontWeight color) ctx
     /\ size (font (drawnWith (fittedText ctx text x y (fst r) fontFace fontWeight color)))
        = fst r
     /\ (fitsAt b text maxWidth fontWeight fontFace (fst r) \/ (fst r <= 14)%Z))
  /\ (forall player agrasenUrl logoUrl canvas,
        composeCanvas b player agrasenUrl logoUrl = Fulfilled canvas ->
        fittedAt b canvas 8 (ratingText player) 115 160 100 80 "Oswald" "700"
        /\ fittedAt b canvas 14 (toUpperCase (name player)) 300 530
             (CARD_WIDTH - 120)%js 60 "Bebas Neue" "400"
        /\ fittedAt b canvas 17 (toUpperCase (role player)) 300 615
             (CARD_WIDTH - 160)%js 24 "Montserrat" "600"
        /\ fittedAt b canvas 20 (toUpperCase (battingStyle player)) 300 673
             (CARD_WIDTH - 160)%js 24 "Montserrat" "600"
        /\ fittedAt b canvas 23 (toUpperCase (bowlingStyle player)) 300 731
             (CARD_WIDTH - 160)%js 24 "Montserrat" "600").
Proof.
  split.
  - intros ctx text x y maxWidth initialFontSize fontFace fontWeight color. cbv zeta.
    rewrite TextFit.drawTextWithFit_eq. cbn [fst snd].
    split; [reflexivity|]. split; [reflexivity|].
    apply TextFit.chosenSize_fits_or_floor.
  - intros player agrasenUrl logoUrl canvas Hcanvas.
    destruct (composeCanvas_bitmap b player agrasenUrl logoUrl canvas Hcanvas)
      as (_ & _ & _ & Hbitmap).
    unfold fittedAt. rewrite Hbitmap.
    set (playerImg := resolved b (imageUrl player)).
    set (agrasenImg := resolved b agrasenUrl).
    set (logoImg := resolved b logoUrl).
    clearbody playerImg agrasenImg logoImg.
    run_card.
    repeat split;
      (eexists; split; [reflexivity|]; split; [reflexivity|]; split; [reflexivity|];
       apply TextFit.chosenSize_fits_or_floor).
Qed.

(** C7.  When [generateCard] gets a canvas, the last two paintings on it
    are the two strokes of the shield outline: first one of width 15 in
    gold (#ffd700), then one of width 2 in cornsilk (#fff8dc).  Both are
    made with an empty clip region, and every painting before them was
    made while the shield was in the clip region: nothing is painted
    after the border, and the border is painted after the clip has been
    released. *)
Theorem border_strokes_last b player agrasenUrl logoUrl canvas :
  composeCanvas b player agrasenUrl logoUrl = Fulfilled canvas ->
  exists earlier outer inner,
    bitmap canvas = (earlier ++ [outer; inner])%list
    /\ Forall clippedByShield earlier
    /\ shape outer = StrokePath shield
    /\ lineWidth (drawnWith outer) = 15
    /\ strokeStyle (drawnWith outer) = Color "#ffd700"
    /\ clipRegion (drawnWith outer) = []
    /\ shape inner = StrokePath shield
    /\ lineWidth (drawnWith inner) = 2
    /\ strokeStyle (drawnWith inner) = Color "#fff8dc"
    /\ clipRegion (drawnWith inner) = [].
Proof.
  intros Hcanvas.
  destruct (composeCanvas_bitmap b player agrasenUrl logoUrl canvas Hcanvas)
    as (_ & _ & _ & ->).
  set (playerImg := resolved b (imageUrl player)).
  set (agrasenImg := resolved b agrasenUrl).
  set (logoImg := resolved b logoUrl).
  clearbody playerImg agrasenImg logoImg.
  run_card.
  match goal with
  | |- exists earlier outer inner, ?l = _ /\ _ =>
      exists (firstn 24 l), (nth 24 l {| shape := StrokePath []; drawnWith := initialState |}),
             (nth 25 l {| shape := StrokePath []; drawnWith := initialState |})
  end.
  cbn [firstn nth app].
  (split; [reflexivity|]). split.
  - unfold clippedByShield. repeat constructor.
  - cbn [shape drawnWith lineWidth strokeStyle clipRegion]. (repeat split; reflexivity).
Qed.

Lemma border_strokes_last_witness :
  exists canvas earlier outer inner,
    composeCanvas halfEm kohli "data:image/png;base64,AAAA" "data:image/png;base64,BBBB"
      = Fulfilled canvas
    /\ bitmap canvas = (earlier ++ [outer; inner])%list
    /\ Forall clippedByShield earlier
    /\ lineWidth (drawnWith outer) = 15
    /\ lineWidth (drawnWith inner) = 2.
Proof.
  pose (canvas :=
    {| width := CARD_WIDTH; height := CARD_HEIGHT;
       bitmap := painted (drawCard halfEm kohli (createPlaceholder halfEm)
                   {| src := "data:image/png;base64,AAAA"; crossOrigin := Some "anonymous" |}
                   {| src := "data:image/png;base64,BBBB"; crossOrigin := Some "anonymous" |}
                   newContext) |}).
  assert (H : composeCanvas halfEm kohli "data:image/png;base64,AAAA"
                "data:image/png;base64,BBBB" = Fulfilled canvas)
    by (vm_compute; reflexivity).
  destruct (border_strokes_last halfEm kohli "data:image/png;base64,AAAA"
              "data:image/png;base64,BBBB" canvas H)
    as (earlier & outer & inner & Hlog & Hclip & _ & Hw1 & _ & _ & _ & Hw2 & _).
  exists canvas, earlier, outer, inner. repeat split; assumption.
Defined.

End Composition.

(** ** Ingestion of the roster *)

Module Ingestion.
Import JS Canvas CardGenerator ExcelService App Spec.
Local Open Scope string_scope.

Lemma mapIndexed_nth {A B : Type} (f : A -> nat -> B) :
  forall (l : list A) (start k : nat) (a : A),
    nth_error l k = Some a ->
    nth_error (mapIndexed f start l) k = Some (f a (start + k)%nat).
Proof.
  induction l as [|x l IH]; intros start [|k] a H; try discriminate; cbn in *.
  - injection H as ->. rewrite Nat.add_0_r. reflexivity.
  - rewrite (IH (S start) k a H). f_equal. f_equal. lia.
Qed.

(** Rows of the first sheet become players, position by position. *)
Lemma parseExcelFile_rows sheetName rows others i row :
  nth_error rows i = Some row ->
  parseExcelFile (Workbook ((sheetName, rows) :: others)) =
    Fulfilled (mapIndexed parseRow 0 rows)
  /\ nth_error (mapIndexed parseRow 0 rows) i = Some (parseRow row i).
Proof.
  intros H. split.
  - destruct rows as [|r rows]; [destruct i; discriminate|]. reflexivity.
  - apply (mapIndexed_nth parseRow rows 0 i row H).
Qed.

(** The rating of a parsed row, by what the rating cell holds. *)
Lemma parseRow_formNumber row index :
  formNumber (parseRow row index) =
  match getRowValue row formKeys with
  | Some s => orNumber (parseInt s) 50
  | None => 50%Z
  end.
Proof.
  unfold parseRow. cbn [formNumber].
  destruct (getRowValue row formKeys) as [s|]; [|reflexivity].
  destruct s; reflexivity.
Qed.

Lemma ratingText_50 p : formNumber p = 50%Z -> ratingText p = "50".
Proof. unfold ratingText. intros ->. reflexivity. Qed.

(** The rating is the ninth painting of a card. *)
Lemma rating_painted b player agrasenUrl logoUrl canvas :
  composeCanvas b player agrasenUrl logoUrl = Fulfilled canvas ->
  nth_error (map shape (bitmap canvas)) 8 =
    Some (FillText (ratingText player) 115%Q 160%Q).
Proof.
  intros Hcanvas.
  destruct (Composition.composeCanvas_bitmap b player agrasenUrl logoUrl canvas Hcanvas)
    as (_ & _ & _ & ->).
  rewrite Composition.drawCard_shapes. reflexivity.
Qed.

(** C5.  A row of the first sheet whose rating cell (the value
    [getRowValue] finds under the headers Form Number, Form, Rating or
    OVR) is missing, or holds a text [parseInt] makes nothing of, becomes
    a player with [formNumber] 50, and the rating painted on that
    player's card, whichever photo source the batch substitutes, is the
    text 50.  The earlier revision of the parser, which reads the cell
    under Form Number only, gives 50 in the same two cases. *)
Theorem missing_rating_defaults_to_50 sheetName rows others i row :
  nth_error rows i = Some row ->
  (getRowValue row formKeys = None
   \/ exists s, getRowValue row formKeys = Some s /\ parseInt s = None) ->
  (exists players p,
     parseExcelFile (Workbook ((sheetName, rows) :: others)) = Fulfilled players
     /\ nth_error players i = Some p
     /\ formNumber p = 50%Z
     /\ ratingText p = "50"
     /\ forall b source agrasenUrl logoUrl canvas,
          composeCanvas b (withImageUrl p source) agrasenUrl logoUrl = Fulfilled canvas ->
          nth_error (map shape (bitmap canvas)) 8 = Some (FillText "50" 115%Q 160%Q))
  /\ ((get row "Form Number" = None
       \/ exists c, get row "Form Number" = Some c /\ parseInt (cellString c) = None) ->
      legacyFormNumber row = 50%Z).
Proof.
  intros Hrow Hcell. split.
  - destruct (parseExcelFile_rows sheetName rows others i row Hrow) as [Hparse Hnth].
    exists (mapIndexed parseRow 0 rows), (parseRow row i).
    assert (Hform : formNumber (parseRow row i) = 50%Z).
    { rewrite parseRow_formNumber.
      destruct Hcell as [->|(s & -> & ->)]; reflexivity. }
    split; [exact Hparse|]. split; [exact Hnth|]. split; [exact Hform|].
    split; [apply ratingText_50; exact Hform|].
    intros b source agrasenUrl logoUrl canvas Hcanvas.
    rewrite (rating_painted b _ agrasenUrl logoUrl canvas Hcanvas).
    unfold ratingText, withImageUrl. cbn [formNumber]. rewrite Hform. reflexivity.
  - unfold legacyFormNumber, formNumberOfCell.
    intros [->|(c & -> & ->)]; reflexivity.
Qed.

Lemma missing_rating_defaults_to_50_witness :
  nth_error [[("Player Name", TextCell "Virat Kohli"); ("Rating", TextCell "n/a")]] 0
    = Some [("Player Name", TextCell "Virat Kohli"); ("Rating", TextCell "n/a")]
  /\ (exists s,
        getRowValue [("Player Name", TextCell "Virat Kohli"); ("Rating", TextCell "n/a")]
          formKeys = Some s /\ parseInt s = None)
  /\ exists players p,
       parseExcelFile
         (Workbook [("Sheet1",
                     [[("Player Name", TextCell "Virat Kohli"); ("Rating", TextCell "n/a")]])])
         = Fulfilled players
       /\ nth_error players 0 = Some p
       /\ formNumber p = 50%Z
       /\ ratingText p = "50".
Proof.
  assert (Hcell : exists s,
            getRowValue [("Player Name", TextCell "Virat Kohli"); ("Rating", TextCell "n/a")]
              formKeys = Some s /\ parseInt s = None)
    by (exists "n/a"; split; reflexivity).
  split; [reflexivity|]. split; [exact Hcell|].
  destruct (missing_rating_defaults_to_50 "Sheet1"
              [[("Player Name", TextCell "Virat Kohli"); ("Rating", TextCell "n/a")]]
              [] 0 _ eq_refl (or_intror Hcell))
    as [(players & p & Hparse & Hnth & Hform & Htext & _) _].
  exists players, p. repeat split; assumption.
Defined.

(** C10.  A row whose rating cell parses to 0 becomes a player with
    [formNumber] 50, as [0 || 50] is 50; its rating is painted as 50, not
    as 00.  The earlier revision of the parser does the same with the
    cell under Form Number. *)
Theorem zero_rating_replaced_by_50 sheetName rows others i row s :
  nth_error rows i = Some row ->
  getRowValue row formKeys = Some s ->
  parseInt s = Some 0%Z ->
  (exists players p,
     parseExcelFile (Workbook ((sheetName, rows) :: others)) = Fulfilled players
     /\ nth_error players i = Some p
     /\ formNumber p = 50%Z
     /\ ratingText p = "50"
     /\ ratingText p <> "00")
  /\ (forall c, get row "Form Number" = Some c -> parseInt (cellString c) = Some 0%Z ->
        legacyFormNumber row = 50%Z).
Proof.
  intros Hrow Hcell Hzero. split.
  - destruct (parseExcelFile_rows sheetName rows others i row Hrow) as [Hparse Hnth].
    exists (mapIndexed parseRow 0 rows), (parseRow row i).
    assert (Hform : formNumber (parseRow row i) = 50%Z).
    { rewrite parseRow_formNumber, Hcell, Hzero. reflexivity. }
    split; [exact Hparse|]. split; [exact Hnth|]. split; [exact Hform|].
    rewrite (ratingText_50 _ Hform). split; [reflexivity | discriminate].
  - intros c Hc Hz. unfold legacyFormNumber, formNumberOfCell. rewrite Hc, Hz. reflexivity.
Qed.

Lemma zero_rating_replaced_by_50_witness :
  getRowValue [("Player Name", TextCell "Sample Bowler"); ("Form Number", NumberCell 0)]
    formKeys = Some "0"
  /\ parseInt "0" = Some 0%Z
  /\ exists players p,
       parseExcelFile
         (Workbook [("Sheet1",
                     [[("Player Name", TextCell "Sample Bowler");
                       ("Form Number", NumberCell 0)]])])
         = Fulfilled players
       /\ nth_error players 0 = Some p
       /\ formNumber p = 50%Z
       /\ ratingText p <> "00".
Proof.
  split; [reflexivity|]. split; [reflexivity|].
  destruct (zero_rating_replaced_by_50 "Sheet1"
              [[("Player Name", TextCell "Sample Bowler"); ("Form Number", NumberCell 0)]]
              [] 0 _ "0" eq_refl eq_refl eq_refl)
    as [(players & p & Hparse & Hnth & Hform & _ & Hnot) _].
  exists players, p. repeat split; assumption.
Defined.

End Ingestion.

(** ** The batch loops *)

Module Batch.
Import JS Canvas CardGenerator ExcelService App Spec.
Local Open Scope string_scope.

(** Cards that render a prefix of the players carry the players' ids. *)
Lemma rendered_ids render :
  forall i ps cs,
    rendered render i ps cs ->
    (List.length cs <= List.length ps)%nat
    /\ map playerId cs = firstn (List.length cs) (map id ps).
Proof.
  intros i ps cs H. induction H as [i ps | i p ps c cs Hid Hurl _ [IHlen IHids]].
  - split; [cbn; lia | reflexivity].
  - cbn. split; [lia|]. rewrite Hid, IHids. reflexivity.
Qed.

Lemma rendered_all_ids render i ps cs :
  rendered render i ps cs -> List.length cs = List.length ps ->
  map playerId cs = map id ps.
Proof.
  intros H Hlen. destruct (rendered_ids render i ps cs H) as [_ ->].
  rewrite Hlen, <- (length_map id ps). apply firstn_all.
Qed.

(** The loop of [handleForgeCards] from any point of its run: what it
    adds to [cards] renders a prefix of the remaining players; the prefix
    is everything unless a composition was rejected, which happens
    exactly where no canvas context could be obtained.  Once a card has
    been added, the component's [generatedCards] is the array [cards]. *)
Lemma forgeLoop_run world agrasen logo :
  forall remaining i cards st,
    exists done,
      produced (forgeLoop world agrasen logo i remaining cards st) = (cards ++ done)%list
      /\ rendered (forge world (assets st) agrasen logo) i remaining done
      /\ (caught (forgeLoop world agrasen logo i remaining cards st) = None ->
            List.length done = List.length remaining)
      /\ (forall e, caught (forgeLoop world agrasen logo i remaining cards st) = Some e ->
            (List.length done < List.length remaining)%nat
            /\ getContext2d (world (i + List.length done)%nat) = false)
      /\ generatedCards (app (forgeLoop world agrasen logo i remaining cards st)) =
           match done with
           | [] => generatedCards st
           | _ => (cards ++ done)%list
           end.
Proof.
  induction remaining as [|player rest IH]; intros i cards st.
  - exists []. cbn. rewrite app_nil_r.
    repeat split; try constructor; try discriminate; congruence.
  - cbn [forgeLoop].
    destruct (Composition.generateCard_settles (world i)
                (withImageUrl player (orString (getPlayerImageSource (assets st) player) ""))
                agrasen logo) as [Hok Hfail].
    destruct (getContext2d (world i)) eqn:Hctx.
    + destruct (Hok eq_refl) as [url Hurl]. rewrite Hurl.
      destruct (IH (S i)
                  (cards ++ [{| playerId := id player; dataUrl := url;
                                scoutReport := None |}])%list
                  (setGeneratedCards
                     (cards ++ [{| playerId := id player; dataUrl := url;
                                   scoutReport := None |}])%list st))
        as (done & Hprod & Hrend & Hnone & Hsome & Hstate).
      exists ({| playerId := id player; dataUrl := url; scoutReport := None |} :: done).
      rewrite Hprod, Hstate, <- app_assoc. cbn [app List.length].
      split; [reflexivity|]. split; [|split; [|split]].
      * apply rendered_next; [reflexivity | exact Hurl | exact Hrend].
      * intros H. rewrite (Hnone H). reflexivity.
      * intros e H. destruct (Hsome e H) as [Hlt Hno]. split; [lia|].
        replace (i + S (List.length done))%nat with (S i + List.length done)%nat by lia.
        exact Hno.
      * destruct done; reflexivity.
    + rewrite (Hfail eq_refl). exists []. cbn. rewrite app_nil_r, Nat.add_0_r.
      split; [reflexivity|]. split; [constructor|]. split; [discriminate|].
      split; [|reflexivity]. intros e _. split; [lia | exact Hctx].
Qed.

(** The loop of [handleProcess] behaves the same, composing each player
    as parsed. *)
Lemma processLoop_run world agrasen logo :
  forall remaining i cards st,
    exists done,
      produced (processLoop world agrasen logo i remaining cards st) = (cards ++ done)%list
      /\ rendered (process world agrasen logo) i remaining done
      /\ (caught (processLoop world agrasen logo i remaining cards st) = None ->
            List.length done = List.length remaining)
      /\ (forall e, caught (processLoop world agrasen logo i remaining cards st) = Some e ->
            (List.length done < List.length remaining)%nat
            /\ getContext2d (world (i + List.length done)%nat) = false)
      /\ generatedCards (app (processLoop world agrasen logo i remaining cards st)) =
           match done with
           | [] => generatedCards st
           | _ => (cards ++ done)%list
           end.
Proof.
  induction remaining as [|player rest IH]; intros i cards st.
  - exists []. cbn. rewrite app_nil_r.
    repeat split; try constructor; try discriminate; congruence.
  - cbn [processLoop].
    destruct (Composition.generateCard_settles (world i) player agrasen logo) as [Hok Hfail].
    destruct (getContext2d (world i)) eqn:Hctx.
    + destruct (Hok eq_refl) as [url Hurl]. rewrite Hurl.
      destruct (IH (S i)
                  (cards ++ [{| playerId := id player; dataUrl := url;
                                scoutReport := None |}])%list
                  (setGeneratedCards
                     (cards ++ [{| playerId := id player; dataUrl := url;
                                   scoutReport := None |}])%list st))
        as (done & Hprod & Hrend & Hnone & Hsome & Hstate).
      exists ({| playerId := id player; dataUrl := url; scoutReport := None |} :: done).
      rewrite Hprod, Hstate, <- app_assoc. cbn [app List.length].
      split; [reflexivity|]. split; [|split; [|split]].
      * apply rendered_next; [reflexivity | exact Hurl | exact Hrend].
      * intros H. rewrite (Hnone H). reflexivity.
      * intros e H. destruct (Hsome e H) as [Hlt Hno]. split; [lia|].
        replace (i + S (List.length done))%nat with (S i + List.length done)%nat by lia.
        exact Hno.
      * destruct done; reflexivity.
    + rewrite (Hfail eq_refl). exists []. cbn. rewrite app_nil_r, Nat.add_0_r.
      split; [reflexivity|]. split; [constructor|]. split; [discriminate|].
      split; [|reflexivity]. intros e _. split; [lia | exact Hctx].
Qed.

Lemma finish_keeps report r :
  produced (finish report r) = produced r /\ caught (finish report r) = caught r.
Proof. unfold finish. destruct (caught r); split; reflexivity. Qed.

(** What both handlers guarantee about the cards of a batch, given the
    loop they ran: [r] is how the handler ended, [ps] the players it
    looped over and [render] the compositions it made. *)
Lemma batch_summary (world : nat -> Browser) render ps r :
  rendered render 0 ps (produced r) ->
  (caught r = None -> List.length (produced r) = List.length ps) ->
  (forall e, caught r = Some e ->
     (List.length (produced r) < List.length ps)%nat
     /\ getContext2d (world (List.length (produced r))) = false) ->
  (caught r = None ->
     List.length (produced r) = List.length ps
     /\ map playerId (produced r) = map id ps)
  /\ ((forall i, (i < List.length ps)%nat -> getContext2d (world i) = true) ->
       caught r = None)
  /\ map playerId (produced r) = firstn (List.length (produced r)) (map id ps).
Proof.
  intros Hrend Hnone Hsome. split; [|split].
  - intros H. split; [exact (Hnone H)|].
    apply (rendered_all_ids render 0 ps _ Hrend (Hnone H)).
  - intros Hall. destruct (caught r) as [e|] eqn:Hc; [|reflexivity].
    destruct (Hsome e eq_refl) as [Hlt Hno]. rewrite (Hall _ Hlt) in Hno. discriminate.
  - apply (rendered_ids render 0 ps _ Hrend).
Qed.

(** C4, as amended.  [handleForgeCards] (and [handleProcess] likewise,
    over the players it has just parsed) ends with an array [cards] that
    renders, in order, the first players of the list, each card keyed by
    the [id] of the player at its position.  If no composition is
    rejected, which is the case when every composition obtains a canvas
    context, there are exactly as many cards as players; a rejected
    composition ends the loop with the cards of the players before it
    only. *)
Theorem batch_follows_players world st agrasen logo :
  present (agrasenImage (assets st)) = Some agrasen ->
  present (logoImage (assets st)) = Some logo ->
  (let r := handleForgeCards world st in
   rendered (forge world (assets st) agrasen logo) 0 (players st) (produced r)
   /\ (caught r = None ->
         List.length (produced r) = List.length (players st)
         /\ map playerId (produced r) = map id (players st))
   /\ ((forall i, (i < List.length (players st))%nat -> getContext2d (world i) = true) ->
         caught r = None)
   /\ map playerId (produced r) = firstn (List.length (produced r)) (map id (players st))
   /\ (forall e, caught r = Some e ->
         (List.length (produced r) < List.length (players st))%nat
         /\ getContext2d (world (List.length (produced r))) = false))
  /\ (forall parse file parsedPlayers,
        excelFile (assets st) = Some file ->
        parse file = Fulfilled parsedPlayers ->
        let r := handleProcess parse world st in
        rendered (process world agrasen logo) 0 parsedPlayers (produced r)
        /\ (caught r = None ->
              List.length (produced r) = List.length parsedPlayers
              /\ map playerId (produced r) = map id parsedPlayers)
        /\ ((forall i, (i < List.length parsedPlayers)%nat -> getContext2d (world i) = true) ->
              caught r = None)
        /\ map playerId (produced r) =
             firstn (List.length (produced r)) (map id parsedPlayers)
        /\ (forall e, caught r = Some e ->
              (List.length (produced r) < List.length parsedPlayers)%nat
              /\ getContext2d (world (List.length (produced r))) = false)).
Proof.
  intros Hagrasen Hlogo. split.
  - cbv zeta. unfold handleForgeCards. rewrite Hagrasen, Hlogo.
    destruct (finish_keeps true
                (forgeLoop world agrasen logo 0 (players (setStatus GENERATING st)) []
                   (setStatus GENERATING st))) as [-> ->].
    destruct (forgeLoop_run world agrasen logo (players (setStatus GENERATING st)) 0 []
                (setStatus GENERATING st)) as (done & Hprod & Hrend & Hnone & Hsome & _).
    change ([] ++ done)%list with done in Hprod. rewrite <- Hprod in Hrend, Hnone, Hsome.
    change (players (setStatus GENERATING st)) with (players st) in *.
    change (assets (setStatus GENERATING st)) with (assets st) in *.
    destruct (batch_summary world _ _ _ Hrend Hnone Hsome) as (H1 & H2 & H3).
    split; [exact Hrend|]. split; [exact H1|]. split; [exact H2|]. split; [exact H3 | exact Hsome].
  - intros parse file parsedPlayers Hfile Hparse. cbv zeta.
    unfold handleProcess. rewrite Hfile, Hagrasen, Hlogo, Hparse.
    destruct (finish_keeps false
                (processLoop world agrasen logo 0 parsedPlayers []
                   (setStatus GENERATING (setPlayers parsedPlayers (setStatus PARSING st)))))
      as [-> ->].
    destruct (processLoop_run world agrasen logo parsedPlayers 0 []
                (setStatus GENERATING (setPlayers parsedPlayers (setStatus PARSING st))))
      as (done & Hprod & Hrend & Hnone & Hsome & _).
    change ([] ++ done)%list with done in Hprod. rewrite <- Hprod in Hrend, Hnone, Hsome.
    destruct (batch_summary world _ _ _ Hrend Hnone Hsome) as (H1 & H2 & H3).
    split; [exact Hrend|]. split; [exact H1|]. split; [exact H2|]. split; [exact H3 | exact Hsome].
Qed.

Lemma batch_follows_players_witness :
  present (agrasenImage (assets reviewState)) = Some "data:image/png;base64,AAAA"
  /\ present (logoImage (assets reviewState)) = Some "data:image/png;base64,BBBB"
  /\ map playerId (produced (handleForgeCards (fun _ => halfEm) reviewState)) =
       map id (players reviewState).
Proof.
  split; [reflexivity|]. split; [reflexivity|].
  destruct (batch_follows_players (fun _ => halfEm) reviewState
              "data:image/png;base64,AAAA" "data:image/png;base64,BBBB"
              eq_refl eq_refl) as [(_ & Hall & Hok & _) _].
  apply Hall. apply Hok. intros i _. reflexivity.
Defined.

(** C4, as stated, fails.  With two players to forge and a browser that
    yields a canvas context for the first composition but not for the
    second, the second composition is rejected, the [catch] branch sets
    the status to ERROR, and the batch ends with one card for two
    players. *)
Lemma batch_stops_on_failure :
  let r := handleForgeCards contextLostAfterFirst reviewState in
  List.length (players reviewState) = 2%nat
  /\ map playerId (produced r) = ["player-0"]
  /\ List.length (produced r) <> List.length (players reviewState)
  /\ caught r = Some "Could not get canvas context"
  /\ status (app r) = ERROR.
Proof.
  vm_compute. repeat split; try reflexivity. discriminate.
Qed.

End Batch.

(** ** Strings *)

Module Strings.
Import JS.
Local Open Scope string_scope.

Lemma append_nil_r (s : string) : s ++ "" = s.
Proof. induction s as [|c s IH]; cbn; [|rewrite IH]; reflexivity. Qed.

Lemma append_assoc (a c d : string) : (a ++ c) ++ d = a ++ (c ++ d).
Proof. induction a as [|x a IH]; cbn; [|rewrite IH]; reflexivity. Qed.

Lemma of_list_app (l m : list ascii) :
  string_of_list_ascii (l ++ m) = string_of_list_ascii l ++ string_of_list_ascii m.
Proof. induction l as [|x l IH]; cbn; [|rewrite IH]; reflexivity. Qed.

Lemma to_list_app (a c : string) :
  list_ascii_of_string (a ++ c) = (list_ascii_of_string a ++ list_ascii_of_string c)%list.
Proof. induction a as [|x a IH]; cbn; [|rewrite IH]; reflexivity. Qed.

Lemma reverse_cons c s : reverse (String c s) = reverse s ++ String c "".
Proof. unfold reverse. cbn. rewrite of_list_app. reflexivity. Qed.

Lemma reverse_snoc s c : reverse (s ++ String c "") = String c (reverse s).
Proof.
  unfold reverse. rewrite to_list_app, rev_app_distr. reflexivity.
Qed.

Lemma reverse_involutive s : reverse (reverse s) = s.
Proof.
  unfold reverse. rewrite list_ascii_of_string_of_list_ascii, rev_involutive.
  apply string_of_list_ascii_of_string.
Qed.

Lemma reverse_length s : String.length (reverse s) = String.length s.
Proof.
  induction s as [|c s IH]; [reflexivity|].
  rewrite reverse_cons. cbn. rewrite <- IH.
  generalize (reverse s). intros r. induction r as [|x r IHr]; cbn; [|rewrite IHr]; reflexivity.
Qed.

Lemma trimStart_cases s :
  trimStart s = ""
  \/ exists c r, trimStart s = String c r /\ isWhiteSpace c = false.
Proof.
  induction s as [|c s IH]; [left; reflexivity|]. cbn.
  destruct (isWhiteSpace c) eqn:E; [exact IH|]. right. exists c, s. auto.
Qed.

Lemma trimStart_idempotent s : trimStart (trimStart s) = trimStart s.
Proof.
  destruct (trimStart_cases s) as [->|(c & r & -> & E)]; [reflexivity|].
  cbn. rewrite E. reflexivity.
Qed.

Lemma trimStart_snoc s c :
  isWhiteSpace c = false -> trimStart (s ++ String c "") = trimStart s ++ String c "".
Proof.
  intros E. induction s as [|x s IH]; cbn; [rewrite E; reflexivity|].
  destruct (isWhiteSpace x); [exact IH | reflexivity].
Qed.

Lemma trimEnd_cons c s :
  isWhiteSpace c = false -> trimEnd (String c s) = String c (trimEnd s).
Proof.
  intros E. unfold trimEnd. rewrite reverse_cons, (trimStart_snoc _ c E).
  apply reverse_snoc.
Qed.

Lemma trimEnd_snoc s c :
  isWhiteSpace c = false -> trimEnd (s ++ String c "") = s ++ String c "".
Proof.
  intros E. unfold trimEnd. rewrite reverse_snoc. cbn [trimStart]. rewrite E.
  rewrite reverse_cons, reverse_involutive. reflexivity.
Qed.

Lemma trimEnd_idempotent s : trimEnd (trimEnd s) = trimEnd s.
Proof.
  unfold trimEnd. rewrite reverse_involutive, trimStart_idempotent. reflexivity.
Qed.

(** A trimmed string is empty or starts with a character that is not
    white space, and trimming it again changes nothing. *)
Lemma trim_cases s :
  trim s = ""
  \/ exists c r, trim s = String c r /\ isWhiteSpace c = false.
Proof.
  unfold trim. destruct (trimStart_cases s) as [->|(c & r & -> & E)]; [left; reflexivity|].
  right. exists c, (trimEnd r). split; [apply trimEnd_cons; exact E | exact E].
Qed.

Lemma trim_idempotent s : trim (trim s) = trim s.
Proof.
  unfold trim at 2 3. destruct (trimStart_cases s) as [->|(c & r & -> & E)]; [reflexivity|].
  rewrite (trimEnd_cons c r E). unfold trim. cbn [trimStart]. rewrite E.
  rewrite (trimEnd_cons c _ E), trimEnd_idempotent. reflexivity.
Qed.

Lemma truthy_false s : truthy s = false <-> s = "".
Proof. destruct s; cbn; split; congruence. Qed.

Lemma truthy_true s : truthy s = true <-> s <> "".
Proof. destruct s; cbn; split; congruence. Qed.

Lemma orString_truthy v d : truthy d = true -> truthy (orString v d) = true.
Proof.
  intros Hd. unfold orString. destruct v as [s|]; [|exact Hd].
  destruct (truthy s) eqn:E; [exact E | exact Hd].
Qed.

Lemma string_eqb_refl s : String.eqb s s = true.
Proof. apply String.eqb_eq. reflexivity. Qed.

End Strings.

(** ** Image links of the roster *)

Module Links.
Import JS ExcelService Strings.
Local Open Scope string_scope.

(** [transformGoogleDriveUrl] only looks at the trimmed link. *)
Lemma transform_unfold url :
  transformGoogleDriveUrl url =
  let cleanUrl := trim url in
  if negb (truthy cleanUrl) then ""
  else if negb (startsWith "http" cleanUrl)
          && (endsWith ".jpg" cleanUrl || endsWith ".png" cleanUrl
              || negb (includes "." cleanUrl))
  then cleanUrl
  else if includes "drive.google.com/thumbnail" cleanUrl then cleanUrl
  else
    let fileId := firstFileId ["/file/d/"; "id="; "/d/"] cleanUrl in
    if truthy fileId
    then "https://drive.google.com/thumbnail?id=" ++ fileId ++ "&sz=w1000"
    else cleanUrl.
Proof.
  unfold transformGoogleDriveUrl. destruct url; reflexivity.
Qed.

Lemma thumbnail_trimmed fileId :
  trim ("https://drive.google.com/thumbnail?id=" ++ fileId ++ "&sz=w1000") =
  "https://drive.google.com/thumbnail?id=" ++ fileId ++ "&sz=w1000".
Proof.
  unfold trim.
  change (trimStart ("https://drive.google.com/thumbnail?id=" ++ fileId ++ "&sz=w1000"))
    with ("https://drive.google.com/thumbnail?id=" ++ fileId ++ "&sz=w1000").
  replace ("https://drive.google.com/thumbnail?id=" ++ fileId ++ "&sz=w1000")
    with (("https://drive.google.com/thumbnail?id=" ++ fileId ++ "&sz=w100") ++ "0").
  - apply trimEnd_snoc. reflexivity.
  - rewrite !append_assoc. reflexivity.
Qed.

Lemma thumbnail_fixed fileId :
  transformGoogleDriveUrl ("https://drive.google.com/thumbnail?id=" ++ fileId ++ "&sz=w1000") =
  "https://drive.google.com/thumbnail?id=" ++ fileId ++ "&sz=w1000".
Proof.
  rewrite transform_unfold. cbv zeta. rewrite thumbnail_trimmed. reflexivity.
Qed.

Lemma transform_of_trimmed c :
  trim c = c ->
  transformGoogleDriveUrl (transformGoogleDriveUrl c) = transformGoogleDriveUrl c
  /\ trim (transformGoogleDriveUrl c) = transformGoogleDriveUrl c.
Proof.
  intros Hc. rewrite (transform_unfold c). cbv zeta. rewrite Hc.
  destruct (truthy c) eqn:Ht; cbn [negb]; [|split; reflexivity].
  destruct (negb (startsWith "http" c)
            && (endsWith ".jpg" c || endsWith ".png" c || negb (includes "." c))) eqn:H1.
  { split; [|exact Hc]. rewrite transform_unfold. cbv zeta. rewrite Hc, Ht, H1. reflexivity. }
  destruct (includes "drive.google.com/thumbnail" c) eqn:H2.
  { split; [|exact Hc]. rewrite transform_unfold. cbv zeta. rewrite Hc, Ht, H1, H2. reflexivity. }
  destruct (truthy (firstFileId ["/file/d/"; "id="; "/d/"] c)) eqn:H3.
  { split; [apply thumbnail_fixed | apply thumbnail_trimmed]. }
  split; [|exact Hc]. rewrite transform_unfold. cbv zeta.
  rewrite Hc, Ht, H1, H2, H3. reflexivity.
Qed.

Lemma transform_trims_first url :
  transformGoogleDriveUrl url = transformGoogleDriveUrl (trim url).
Proof.
  rewrite (transform_unfold url), (transform_unfold (trim url)). cbv zeta.
  rewrite trim_idempotent. reflexivity.
Qed.

Lemma transform_trimmed url :
  trim (transformGoogleDriveUrl url) = transformGoogleDriveUrl url.
Proof.
  rewrite transform_trims_first.
  exact (proj2 (transform_of_trimmed (trim url) (trim_idempotent url))).
Qed.

(** X1.  [transformGoogleDriveUrl] is idempotent and its result carries no
    surrounding white space: a link that has been transformed once (a
    bare file name, a thumbnail link, or any other link) is left as it is
    by a second pass, and a blank cell gives the empty string. *)
Theorem transform_idempotent url :
  transformGoogleDriveUrl (transformGoogleDriveUrl url) = transformGoogleDriveUrl url
  /\ trim (transformGoogleDriveUrl url) = transformGoogleDriveUrl url
  /\ (trim url = "" -> transformGoogleDriveUrl url = "").
Proof.
  split; [|split].
  - rewrite (transform_trims_first url).
    exact (proj1 (transform_of_trimmed (trim url) (trim_idempotent url))).
  - apply transform_trimmed.
  - intros Hblank. rewrite transform_trims_first, Hblank. reflexivity.
Qed.

End Links.

(** ** Rows of the roster *)

Module Rows.
Import JS CardGenerator ExcelService Strings.
Local Open Scope string_scope.

Lemma get_In row key v : get row key = Some v -> In (key, v) row.
Proof.
  induction row as [|[k w] row IH]; cbn; [discriminate|].
  destruct (String.eqb k key) eqn:E.
  - apply String.eqb_eq in E. intros [= ->]. left. congruence.
  - intros H. right. exact (IH H).
Qed.

Lemma get_header row key : In key (map fst row) -> exists v, get row key = Some v.
Proof.
  induction row as [|[k w] row IH]; cbn; [intros []|].
  destruct (String.eqb k key) eqn:E; [eexists; reflexivity|].
  intros [H|H]; [|exact (IH H)].
  apply String.eqb_neq in E. contradiction.
Qed.

Lemma get_is_header row key v : get row key = Some v -> In key (map fst row).
Proof. intros H. apply get_In in H. apply (in_map fst) in H. exact H. Qed.

Lemma normalizeKey_empty : normalizeKey "" = "".
Proof. reflexivity. Qed.

Lemma exactMatch_found row keys s :
  exactMatch row keys = Some s ->
  exists k v, In k keys /\ get row k = Some v /\ s = trim (cellString v).
Proof.
  induction keys as [|k keys IH]; cbn; [discriminate|].
  destruct (get row k) as [v|] eqn:E.
  - intros [= <-]. exists k, v. auto.
  - intros H. destruct (IH H) as (k' & v & Hin & Hget & Hs). exists k', v. auto.
Qed.

Lemma exactMatch_none row keys :
  exactMatch row keys = None -> forall k, In k keys -> get row k = None.
Proof.
  induction keys as [|k keys IH]; cbn; [intros _ k []|].
  destruct (get row k) as [v|] eqn:E; [discriminate|].
  intros H k' [<-|Hin]; [exact E | exact (IH H k' Hin)].
Qed.

Lemma fuzzyMatch_found row keys s :
  fuzzyMatch row keys = Some s ->
  exists k h v,
    In k keys /\ In (h, v) row /\ normalizeKey h = normalizeKey k
    /\ s = trim (cellString v).
Proof.
  induction keys as [|k keys IH]; cbn; [discriminate|].
  destruct (find _ (map fst row)) as [h|] eqn:Hfind.
  - destruct (truthy h); [destruct (get row h) as [v|] eqn:Hget|].
    + intros [= <-]. apply find_some in Hfind. destruct Hfind as [_ Heq].
      apply String.eqb_eq in Heq. exists k, h, v. auto using get_In.
    + intros H. destruct (IH H) as (k' & h' & v & ? & ? & ? & ?). exists k', h', v. auto.
    + intros H. destruct (IH H) as (k' & h' & v & ? & ? & ? & ?). exists k', h', v. auto.
  - intros H. destruct (IH H) as (k' & h' & v & ? & ? & ? & ?). exists k', h', v. auto.
Qed.

Lemma fuzzyMatch_none row keys :
  (forall k, In k keys -> normalizeKey k <> "") ->
  fuzzyMatch row keys = None ->
  forall k h, In k keys -> In h (map fst row) -> normalizeKey h <> normalizeKey k.
Proof.
  induction keys as [|k keys IH]; cbn; [intros _ _ k h []|].
  intros Hkeys.
  destruct (find _ (map fst row)) as [f|] eqn:Hfind.
  - apply find_some in Hfind. destruct Hfind as [Hin Heq]. apply String.eqb_eq in Heq.
    assert (Ht : truthy f = true).
    { apply truthy_true. intros ->. apply (Hkeys k); [left; reflexivity|].
      rewrite <- Heq. reflexivity. }
    rewrite Ht. destruct (get_header row f Hin) as [v ->]. discriminate.
  - intros H k' h [<-|Hin] Hh.
    + pose proof (find_none _ _ Hfind h Hh) as Hne. cbn in Hne.
      apply String.eqb_neq in Hne. exact Hne.
    + apply (IH (fun k0 H0 => Hkeys k0 (or_intror H0)) H k' h Hin Hh).
Qed.

Lemma fuzzyMatch_absent row keys :
  (forall k h, In k keys -> In h (map fst row) -> normalizeKey h <> normalizeKey k) ->
  fuzzyMatch row keys = None.
Proof.
  induction keys as [|k keys IH]; cbn; [reflexivity|]. intros H.
  destruct (find _ (map fst row)) as [f|] eqn:Hfind.
  - apply find_some in Hfind. destruct Hfind as [Hin Heq]. apply String.eqb_eq in Heq.
    exfalso. exact (H k f (or_introl eq_refl) Hin Heq).
  - apply IH. intros k' h Hk. apply H. right. exact Hk.
Qed.

Lemma exactMatch_absent row keys :
  (forall k h, In k keys -> In h (map fst row) -> normalizeKey h <> normalizeKey k) ->
  exactMatch row keys = None.
Proof.
  induction keys as [|k keys IH]; cbn; [reflexivity|]. intros H.
  destruct (get row k) as [v|] eqn:E.
  - exfalso. exact (H k k (or_introl eq_refl) (get_is_header row k v E) eq_refl).
  - apply IH. intros k' h Hk. apply H. right. exact Hk.
Qed.

(** X2.  [getRowValue] finds a column exactly when one of the row's
    headers equals one of the accepted names up to letter case and white
    space; what it returns is then the text of a cell under such a
    header, without surrounding white space.  (The accepted names must
    not be blank, as is the case of every list the parser passes.) *)
Theorem header_found_iff row keys :
  (forall k, In k keys -> normalizeKey k <> "") ->
  (getRowValue row keys = None <->
     forall k h, In k keys -> In h (map fst row) -> normalizeKey h <> normalizeKey k)
  /\ (forall s, getRowValue row keys = Some s ->
        trim s = s
        /\ exists k h v,
             In k keys /\ In (h, v) row /\ normalizeKey h = normalizeKey k
             /\ s = trim (cellString v)).
Proof.
  intros Hkeys. split; [split|].
  - unfold getRowValue. destruct (exactMatch row keys) eqn:E; [discriminate|].
    intros H. apply (fuzzyMatch_none row keys Hkeys H).
  - intros H. unfold getRowValue.
    rewrite (exactMatch_absent row keys H). apply (fuzzyMatch_absent row keys H).
  - intros s. unfold getRowValue. destruct (exactMatch row keys) as [e|] eqn:E.
    + intros [= <-]. destruct (exactMatch_found row keys e E) as (k & v & Hk & Hget & ->).
      split; [apply trim_idempotent|]. exists k, k, v. auto using get_In.
    + intros H. destruct (fuzzyMatch_found row keys s H) as (k & h & v & Hk & Hin & Hn & ->).
      split; [apply trim_idempotent|]. exists k, h, v. auto.
Qed.

Lemma header_found_iff_witness :
  (forall k, In k formKeys -> normalizeKey k <> "")
  /\ getRowValue [("  form NUMBER ", NumberCell 88)] formKeys = Some "88"
  /\ trim "88" = "88"
  /\ exists k h v,
       In k formKeys /\ In (h, v) [("  form NUMBER ", NumberCell 88)]
       /\ normalizeKey h = normalizeKey k /\ "88" = trim (cellString v).
Proof.
  assert (Hkeys : forall k, In k formKeys -> normalizeKey k <> "").
  { intros k [<-|[<-|[<-|[<-|[]]]]]; discriminate. }
  split; [exact Hkeys|]. split; [reflexivity|].
  exact (proj2 (header_found_iff [("  form NUMBER ", NumberCell 88)] formKeys Hkeys)
           "88" eq_refl).
Defined.

Lemma getRowValue_trimmed row keys s : getRowValue row keys = Some s -> trim s = s.
Proof.
  unfold getRowValue. destruct (exactMatch row keys) as [e|] eqn:E.
  - intros [= <-]. destruct (exactMatch_found row keys e E) as (k & v & _ & _ & ->).
    apply trim_idempotent.
  - intros H. destruct (fuzzyMatch_found row keys s H) as (k & h & v & _ & _ & _ & ->).
    apply trim_idempotent.
Qed.

Lemma orString_trimmed row keys d :
  trim d = d -> trim (orString (getRowValue row keys) d) = orString (getRowValue row keys) d.
Proof.
  intros Hd. unfold orString. destruct (getRowValue row keys) as [s|] eqn:E; [|exact Hd].
  destruct (truthy s); [exact (getRowValue_trimmed row keys s E) | exact Hd].
Qed.

Lemma orNumber_nonzero v d : d <> 0%Z -> orNumber v d <> 0%Z.
Proof.
  intros Hd. unfold orNumber. destruct v as [n|]; [|exact Hd].
  destruct (n =? 0)%Z eqn:E; [exact Hd|]. apply Z.eqb_neq. exact E.
Qed.

(** X3.  Every player [parseExcelFile] makes of a row is complete,
    whatever the row holds: name, role, batting and bowling style are
    non-empty and carry no surrounding white space, the rating is never
    0 (a rating read as 0, like one that cannot be read, has been
    replaced by 50), the image link carries no surrounding white space,
    and no manual image is attached. *)
Theorem parsed_player_complete row index :
  let p := parseRow row index in
  (truthy (name p) = true /\ trim (name p) = name p)
  /\ (truthy (role p) = true /\ trim (role p) = role p)
  /\ (truthy (battingStyle p) = true /\ trim (battingStyle p) = battingStyle p)
  /\ (truthy (bowlingStyle p) = true /\ trim (bowlingStyle p) = bowlingStyle p)
  /\ formNumber p <> 0%Z
  /\ trim (imageUrl p) = imageUrl p
  /\ manualImage p = None.
Proof.
  cbv zeta. unfold parseRow. cbn [name role battingStyle bowlingStyle formNumber imageUrl manualImage].
  repeat split;
    try (apply orString_truthy; reflexivity);
    try (apply orString_trimmed; reflexivity).
  - apply orNumber_nonzero. discriminate.
  - apply Links.transform_trimmed.
Qed.

Lemma toString_injective a c : toString a = toString c -> a = c.
Proof.
  unfold toString. intros H. apply DecimalZ.to_int_inj.
  assert (Hnil : forall z, Z.to_int z <> Decimal.Pos Decimal.Nil
                           /\ Z.to_int z <> Decimal.Neg Decimal.Nil).
  { intros z. split; intros E; pose proof (DecimalZ.of_to z) as Hz;
      rewrite E in Hz; cbn in Hz; subst z; discriminate. }
  destruct (Hnil a) as [Ha1 Ha2]. destruct (Hnil c) as [Hc1 Hc2].
  pose proof (NilZero.isi (Z.to_int a) Ha1 Ha2) as Ia.
  pose proof (NilZero.isi (Z.to_int c) Hc1 Hc2) as Ic.
  rewrite H in Ia. congruence.
Qed.

Lemma mapIndexed_length {A B : Type} (f : A -> nat -> B) l :
  forall start, List.length (mapIndexed f start l) = List.length l.
Proof. induction l as [|a l IH]; intros start; cbn; [|rewrite IH]; reflexivity. Qed.

Lemma mapIndexed_ids rows :
  forall start p,
    In p (mapIndexed parseRow start rows) ->
    exists k, (start <= k)%nat /\ id p = "player-" ++ toString (Z.of_nat k).
Proof.
  induction rows as [|r rows IH]; intros start p; cbn; [intros []|].
  intros [<-|H].
  - exists start. split; [lia|reflexivity].
  - destruct (IH (S start) p H) as (k & Hk & Hid). exists k. split; [lia | exact Hid].
Qed.

Lemma mapIndexed_NoDup rows :
  forall start, NoDup (map id (mapIndexed parseRow start rows)).
Proof.
  induction rows as [|r rows IH]; intros start; cbn; [constructor|].
  constructor; [|apply IH].
  intros Hin. apply in_map_iff in Hin. destruct Hin as (p & Hid & Hp).
  destruct (mapIndexed_ids rows (S start) p Hp) as (k & Hk & Hidk).
  rewrite Hidk in Hid. cbn in Hid. injection Hid as Hid.
  apply toString_injective in Hid. lia.
Qed.

(** X4.  The players of a parsed file carry the identifiers player-0,
    player-1, ... in row order; no two players share an identifier, so
    looking a player up by the identifier of the player at some position
    finds that very player. *)
Theorem parsed_ids_unique file parsed :
  parseExcelFile file = Fulfilled parsed ->
  NoDup (map id parsed)
  /\ (forall i p, nth_error parsed i = Some p ->
        id p = "player-" ++ toString (Z.of_nat i)
        /\ find (fun q => String.eqb (id q) (id p)) parsed = Some p).
Proof.
  intros Hparse.
  assert (Hshape : exists rows, parsed = mapIndexed parseRow 0 rows).
  { destruct file as [| |[|[sheetName [|r rows]] others]]; try discriminate.
    exists (r :: rows).
    rewrite (proj1 (Ingestion.parseExcelFile_rows sheetName (r :: rows) others 0 r eq_refl))
      in Hparse.
    congruence. }
  destruct Hshape as [rows ->].
  pose proof (mapIndexed_NoDup rows 0) as Hnodup.
  split; [exact Hnodup|]. intros i p Hnth. split.
  - assert (Hrow : exists row, nth_error rows i = Some row).
    { destruct (nth_error rows i) as [row|] eqn:E; [eauto|].
      apply nth_error_None in E.
      assert (i < List.length (mapIndexed parseRow 0 rows))%nat
        by (apply nth_error_Some; congruence).
      rewrite mapIndexed_length in H. lia. }
    destruct Hrow as [row Hrow].
    pose proof (Ingestion.mapIndexed_nth parseRow rows 0 i row Hrow) as H.
    rewrite Hnth in H. injection H as ->. reflexivity.
  - revert i Hnth Hnodup. generalize (mapIndexed parseRow 0 rows) as l.
    induction l as [|q l IH]; intros [|i] Hnth Hnodup; try discriminate; cbn in *.
    + injection Hnth as ->. rewrite string_eqb_refl. reflexivity.
    + inversion Hnodup as [|? ? Hnotin Hrest]; subst.
      destruct (String.eqb (id q) (id p)) eqn:E.
      * apply String.eqb_eq in E. exfalso. apply Hnotin. rewrite E.
        apply in_map. apply (nth_error_In _ _ Hnth).
      * apply (IH i Hnth Hrest).
Qed.

Lemma parsed_ids_unique_witness :
  parseExcelFile (Workbook [("Sheet1", [[("Name", TextCell "A")]; [("Name", TextCell "B")]])])
    = Fulfilled (mapIndexed parseRow 0 [[("Name", TextCell "A")]; [("Name", TextCell "B")]])
  /\ NoDup (map id (mapIndexed parseRow 0 [[("Name", TextCell "A")]; [("Name", TextCell "B")]])).
Proof.
  split; [reflexivity|].
  exact (proj1 (parsed_ids_unique
                  (Workbook [("Sheet1", [[("Name", TextCell "A")]; [("Name", TextCell "B")]])])
                  _ eq_refl)).
Defined.

Lemma parseExcelFile_fulfilled file parsed :
  parseExcelFile file = Fulfilled parsed <->
  exists sheetName rows others,
    file = Workbook ((sheetName, rows) :: others)
    /\ rows <> []
    /\ parsed = mapIndexed parseRow 0 rows.
Proof.
  split.
  - destruct file as [| |[|[sheetName [|r rows]] others]]; try discriminate.
    rewrite (proj1 (Ingestion.parseExcelFile_rows sheetName (r :: rows) others 0 r eq_refl)).
    intros [= <-]. exists sheetName, (r :: rows), others.
    split; [reflexivity|]. split; [discriminate | reflexivity].
  - intros (sheetName & rows & others & -> & Hrows & ->).
    destruct rows as [|r rows]; [contradiction | reflexivity].
Qed.

(** X5.  [parseExcelFile] is fulfilled exactly for a workbook whose first
    sheet has at least one row; it then yields one player per row of that
    sheet, in order, and ignores the other sheets.  Rows are never
    dropped, so a workbook is only rejected for having no sheet or an
    empty first sheet. *)
Theorem parse_outcomes file :
  (forall parsed,
     parseExcelFile file = Fulfilled parsed <->
     exists sheetName rows others,
       file = Workbook ((sheetName, rows) :: others)
       /\ rows <> []
       /\ parsed = mapIndexed parseRow 0 rows)
  /\ (forall parsed sheetName rows others,
        file = Workbook ((sheetName, rows) :: others) ->
        parseExcelFile file = Fulfilled parsed ->
        List.length parsed = List.length rows
        /\ parseExcelFile (Workbook [(sheetName, rows)]) = Fulfilled parsed)
  /\ (forall e sheets,
        file = Workbook sheets ->
        parseExcelFile file = Rejected e ->
        (sheets = [] /\ e = "Excel file appears to be empty (no sheets found).")
        \/ (exists sheetName others,
              sheets = (sheetName, []) :: others
              /\ e = "No data found in the first sheet. Please check the file content.")).
Proof.
  split; [|split].
  - intros parsed. apply parseExcelFile_fulfilled.
  - intros parsed sheetName rows others -> H.
    destruct rows as [|r rows]; [discriminate|].
    rewrite (proj1 (Ingestion.parseExcelFile_rows sheetName (r :: rows) others 0 r eq_refl))
      in H.
    injection H as <-.
    split; [apply (mapIndexed_length parseRow (r :: rows) 0) | reflexivity].
  - intros e sheets -> H.
    destruct sheets as [|[sheetName [|r rows]] others].
    + left. split; [reflexivity|]. cbn in H. congruence.
    + right. exists sheetName, others. split; [reflexivity|]. cbn in H. congruence.
    + rewrite (proj1 (Ingestion.parseExcelFile_rows sheetName (r :: rows) others 0 r eq_refl))
        in H.
      discriminate.
Qed.

End Rows.

(** ** Photo sources *)

Module Photos.
Import JS Canvas CardGenerator ExcelService App Spec Handlers Strings.
Local Open Scope string_scope.

Lemma lookup_truthy m key v : lookup m key = Some v -> truthy v = true.
Proof.
  induction m as [|[k w] m IH]; cbn; [discriminate|].
  destruct (String.eqb k key); [|exact IH].
  destruct (truthy w) eqn:E; [intros [= <-]; exact E | discriminate].
Qed.

Lemma startsWith_truthy p s : truthy p = true -> startsWith p s = true -> truthy s = true.
Proof. destruct p; [discriminate|]. destruct s; [discriminate | reflexivity]. Qed.

Lemma source_truthy a p s : getPlayerImageSource a p = Some s -> truthy s = true.
Proof.
  unfold getPlayerImageSource.
  destruct (manualImage p) as [m|].
  - destruct (truthy m) eqn:E; [intros [= <-]; exact E|].
    destruct (lookup _ (trim (imageUrl p))) eqn:L1; [intros [= <-]; exact (lookup_truthy _ _ _ L1)|].
    destruct (lookup _ (beforeFirst _ _)) eqn:L2; [intros [= <-]; exact (lookup_truthy _ _ _ L2)|].
    destruct (startsWith "http" (imageUrl p)) eqn:S1;
      [intros [= <-]; exact (startsWith_truthy "http" _ eq_refl S1)|].
    destruct (startsWith "data:" (imageUrl p)) eqn:S2;
      [intros [= <-]; exact (startsWith_truthy "data:" _ eq_refl S2) | discriminate].
  - destruct (lookup _ (trim (imageUrl p))) eqn:L1; [intros [= <-]; exact (lookup_truthy _ _ _ L1)|].
    destruct (lookup _ (beforeFirst _ _)) eqn:L2; [intros [= <-]; exact (lookup_truthy _ _ _ L2)|].
    destruct (startsWith "http" (imageUrl p)) eqn:S1;
      [intros [= <-]; exact (startsWith_truthy "http" _ eq_refl S1)|].
    destruct (startsWith "data:" (imageUrl p)) eqn:S2;
      [intros [= <-]; exact (startsWith_truthy "data:" _ eq_refl S2) | discriminate].
Qed.

Lemma card_images b player agrasenUrl logoUrl canvas :
  composeCanvas b player agrasenUrl logoUrl = Fulfilled canvas ->
  imagesDrawn (map shape (bitmap canvas)) =
    [resolved b (imageUrl player); resolved b agrasenUrl; resolved b logoUrl].
Proof.
  intros Hcanvas.
  destruct (Composition.composeCanvas_bitmap b player agrasenUrl logoUrl canvas Hcanvas)
    as (_ & _ & _ & ->).
  rewrite Composition.drawCard_shapes. reflexivity.
Qed.

(** X6.  For a player whose link does not name a property every object
    inherits, [getPlayerImageSource] never yields an empty source: the
    source [handleForgeCards] hands to the compositor is the one it
    found, and it is empty exactly when none was found.  In that case
    nothing is requested from the network and the first of the three
    images drawn on the card, the photo, is the placeholder. *)
Theorem missing_photo_is_placeholder a p b agrasenUrl logoUrl :
  (present (manualImage p) = None -> readsOwnEntries p) ->
  (forall s, getPlayerImageSource a p = Some s ->
     truthy s = true /\ finalSource a p = s)
  /\ (finalSource a p = "" <-> getPlayerImageSource a p = None)
  /\ (getPlayerImageSource a p = None ->
        effects (loadImage b (finalSource a p)) = [WarnNoSource]
        /\ forall canvas,
             composeCanvas b (withImageUrl p (finalSource a p)) agrasenUrl logoUrl
               = Fulfilled canvas ->
             imagesDrawn (map shape (bitmap canvas)) =
               [createPlaceholder b; resolved b agrasenUrl; resolved b logoUrl]).
Proof.
  intros _.
  assert (Hsome : forall s, getPlayerImageSource a p = Some s ->
                    truthy s = true /\ finalSource a p = s).
  { intros s H. pose proof (source_truthy a p s H) as Ht.
    split; [exact Ht|]. unfold finalSource, orString. rewrite H, Ht. reflexivity. }
  assert (Hnone : getPlayerImageSource a p = None -> finalSource a p = "").
  { intros H. unfold finalSource. rewrite H. reflexivity. }
  split; [exact Hsome|]. split; [split|].
  - intros H. destruct (getPlayerImageSource a p) as [s|] eqn:E; [|reflexivity].
    destruct (Hsome s eq_refl) as [Ht Hf]. rewrite Hf in H. subst s. discriminate.
  - exact Hnone.
  - intros H. rewrite (Hnone H). split; [reflexivity|].
    intros canvas Hcanvas.
    rewrite (card_images b _ agrasenUrl logoUrl canvas Hcanvas). reflexivity.
Qed.

Lemma missing_photo_is_placeholder_witness :
  (present (manualImage kohli) = None -> readsOwnEntries kohli)
  /\ getPlayerImageSource sampleAssets kohli = None
  /\ finalSource sampleAssets kohli = ""
  /\ effects (loadImage halfEm (finalSource sampleAssets kohli)) = [WarnNoSource].
Proof.
  assert (Hown : present (manualImage kohli) = None -> readsOwnEntries kohli)
    by (intros _; split; reflexivity).
  destruct (missing_photo_is_placeholder sampleAssets kohli halfEm
              "data:image/png;base64,AAAA" "data:image/png;base64,BBBB" Hown)
    as (_ & Hempty & Hdrawn).
  split; [exact Hown|]. split; [reflexivity|].
  split; [exact (proj2 Hempty eq_refl)|].
  exact (proj1 (Hdrawn eq_refl)).
Defined.

Lemma lookup_setProperty_same m key v :
  key <> "__proto__" ->
  lookup (setProperty m key v) key = if truthy v then Some v else None.
Proof.
  intros Hne. unfold setProperty. apply String.eqb_neq in Hne. rewrite Hne.
  induction m as [|[k w] m IH]; cbn.
  - rewrite string_eqb_refl. reflexivity.
  - destruct (String.eqb k key) eqn:E; cbn; rewrite E; [reflexivity | exact IH].
Qed.

Lemma lookup_assign_other m key v other :
  other <> key -> lookup (assign m key v) other = lookup m other.
Proof.
  intros Hne. induction m as [|[k w] m IH]; cbn.
  - destruct (String.eqb key other) eqn:E; [|reflexivity].
    apply String.eqb_eq in E. congruence.
  - destruct (String.eqb k key) eqn:E; cbn.
    + apply String.eqb_eq in E. subst k.
      destruct (String.eqb key other) eqn:E'; [|reflexivity].
      apply String.eqb_eq in E'. congruence.
    + destruct (String.eqb k other); [reflexivity | exact IH].
Qed.

Lemma lookup_setProperty_other m key v other :
  other <> key -> lookup (setProperty m key v) other = lookup m other.
Proof.
  intros Hne. unfold setProperty.
  destruct (String.eqb key "__proto__"); [reflexivity|].
  apply lookup_assign_other. exact Hne.
Qed.

Lemma registerFile_name create m f :
  truthy (create f) = true ->
  fileName f <> "__proto__" ->
  lookup (registerFile create m f) (fileName f) = Some (create f).
Proof.
  intros Ht Hname. unfold registerFile.
  destruct (truthy (beforeLast "." (fileName f))).
  - destruct (String.eqb (fileName f) (beforeLast "." (fileName f))) eqn:E.
    + apply String.eqb_eq in E. rewrite <- E.
      rewrite (lookup_setProperty_same _ _ _ Hname), Ht. reflexivity.
    + apply String.eqb_neq in E. rewrite (lookup_setProperty_other _ _ _ _ E).
      rewrite (lookup_setProperty_same _ _ _ Hname), Ht. reflexivity.
  - rewrite (lookup_setProperty_same _ _ _ Hname), Ht. reflexivity.
Qed.

Lemma registerFile_stem create m f :
  truthy (create f) = true ->
  truthy (beforeLast "." (fileName f)) = true ->
  beforeLast "." (fileName f) <> "__proto__" ->
  lookup (registerFile create m f) (beforeLast "." (fileName f)) = Some (create f).
Proof.
  intros Ht Hs Hstem. unfold registerFile.
  rewrite Hs, (lookup_setProperty_same _ _ _ Hstem), Ht. reflexivity.
Qed.

Lemma registerFile_other create m f key :
  key <> fileName f -> key <> beforeLast "." (fileName f) ->
  lookup (registerFile create m f) key = lookup m key.
Proof.
  intros H1 H2. unfold registerFile.
  destruct (truthy (beforeLast "." (fileName f))).
  - rewrite (lookup_setProperty_other _ _ _ _ H2), (lookup_setProperty_other _ _ _ _ H1).
    reflexivity.
  - rewrite (lookup_setProperty_other _ _ _ _ H1). reflexivity.
Qed.

Lemma register_all_other create files :
  forall m key,
    (forall g, In g files -> key <> fileName g /\ key <> beforeLast "." (fileName g)) ->
    lookup (fold_left (registerFile create) files m) key = lookup m key.
Proof.
  induction files as [|g files IH]; intros m key H; cbn; [reflexivity|].
  rewrite IH by (intros g' Hg'; apply H; right; exact Hg').
  destruct (H g (or_introl eq_refl)) as [H1 H2].
  apply registerFile_other; assumption.
Qed.

(** X7.  After [handleBatchImageUpload], the file uploaded last, unless
    it is named [__proto__] or has that stem, is found under its name
    and, when the name has an extension, under the name without its
    extension; a player without manual image whose link is either of the
    two, or a name with the same stem that is neither in the map nor
    inherited by every object, gets the file's object URL as photo
    source.  Names no uploaded file registers keep the entry they had. *)
Theorem batch_upload_round_trip create st files f :
  truthy (create f) = true ->
  fileName f <> "__proto__" ->
  beforeLast "." (fileName f) <> "__proto__" ->
  let st' := handleBatchImageUpload create st (files ++ [f]) in
  let m' := localImageMap (assets st') in
  lookup m' (fileName f) = Some (create f)
  /\ (truthy (beforeLast "." (fileName f)) = true ->
        lookup m' (beforeLast "." (fileName f)) = Some (create f))
  /\ (forall p, present (manualImage p) = None ->
        trim (imageUrl p) = fileName f
        \/ (truthy (beforeLast "." (fileName f)) = true
            /\ trim (imageUrl p) = beforeLast "." (fileName f)) ->
        getPlayerImageSource (assets st') p = Some (create f))
  /\ (forall p, present (manualImage p) = None ->
        inherited (trim (imageUrl p)) = false ->
        lookup m' (trim (imageUrl p)) = None ->
        truthy (beforeLast "." (fileName f)) = true ->
        beforeFirst "." (trim (imageUrl p)) = beforeLast "." (fileName f) ->
        getPlayerImageSource (assets st') p = Some (create f))
  /\ (forall key,
        (forall g, In g (files ++ [f]) ->
           key <> fileName g /\ key <> beforeLast "." (fileName g)) ->
        lookup m' key = lookup (localImageMap (assets st)) key)
  /\ players st' = players st.
Proof.
  intros Ht Hnot Hstem. cbv zeta. unfold handleBatchImageUpload.
  cbn [assets setAssets localImageMap players].
  rewrite fold_left_app. cbn [fold_left].
  set (m := fold_left (registerFile create) files (localImageMap (assets st))).
  pose proof (registerFile_name create m f Ht Hnot) as Hname.
  split; [exact Hname|].
  split; [intros Hs; apply registerFile_stem; assumption|].
  split; [|split; [|split; [|reflexivity]]].
  - intros p Hmanual Hurl. unfold getPlayerImageSource.
    change (match manualImage p with
            | Some m0 => if truthy m0 then Some m0 else None
            | None => None
            end) with (present (manualImage p)).
    rewrite Hmanual. cbn [localImageMap].
    destruct Hurl as [->|[Hs ->]];
      [rewrite Hname | rewrite (registerFile_stem create m f Ht Hs Hstem)]; reflexivity.
  - intros p Hmanual _ Hexact Hs Hsame. unfold getPlayerImageSource.
    change (match manualImage p with
            | Some m0 => if truthy m0 then Some m0 else None
            | None => None
            end) with (present (manualImage p)).
    rewrite Hmanual. cbn [localImageMap]. rewrite Hexact, Hsame.
    rewrite (registerFile_stem create m f Ht Hs Hstem). reflexivity.
  - intros key H. subst m.
    rewrite <- (register_all_other create (files ++ [f]) (localImageMap (assets st)) key H).
    rewrite fold_left_app. reflexivity.
Qed.

Lemma batch_upload_round_trip_witness :
  truthy (blobUrl {| fileName := "bowler_1.jpg"; contents := "" |}) = true
  /\ "bowler_1.jpg" <> "__proto__"
  /\ beforeLast "." "bowler_1.jpg" <> "__proto__"
  /\ getPlayerImageSource
       (assets (handleBatchImageUpload blobUrl reviewState
                  ([] ++ [{| fileName := "bowler_1.jpg"; contents := "" |}])))
       sampleBowler
     = Some "blob:bowler_1.jpg".
Proof.
  assert (Hname : "bowler_1.jpg" <> "__proto__") by discriminate.
  assert (Hstem : beforeLast "." "bowler_1.jpg" <> "__proto__") by discriminate.
  split; [reflexivity|]. split; [exact Hname|]. split; [exact Hstem|].
  destruct (batch_upload_round_trip blobUrl reviewState []
              {| fileName := "bowler_1.jpg"; contents := "" |} eq_refl Hname Hstem)
    as (_ & _ & Hlink & _).
  apply Hlink; [reflexivity|]. right. split; reflexivity.
Defined.

(** X8.  [handleIndividualUpload] attaches the uploaded file to the
    player with the given identifier and to no other: the players keep
    their order, identifiers and roster links, and from then on the
    attached file is the photo source of that player whatever the map of
    batch photos holds, so the first of the three images drawn on the
    player's card, the photo, is what [loadImage] resolves for it (the
    file, or the placeholder should it fail to load). *)
Theorem individual_upload_wins create st playerId file :
  truthy (create file) = true ->
  let st' := handleIndividualUpload create st playerId file in
  map id (players st') = map id (players st)
  /\ map imageUrl (players st') = map imageUrl (players st)
  /\ (forall i p, nth_error (players st) i = Some p ->
        exists p',
          nth_error (players st') i = Some p'
          /\ (id p <> playerId -> p' = p)
          /\ (id p = playerId ->
                forall a, getPlayerImageSource a p' = Some (create file)
                  /\ forall b agrasenUrl logoUrl canvas,
                       composeCanvas b (withImageUrl p' (finalSource a p')) agrasenUrl logoUrl
                         = Fulfilled canvas ->
                       imagesDrawn (map shape (bitmap canvas)) =
                         [resolved b (create file); resolved b agrasenUrl;
                          resolved b logoUrl])).
Proof.
  intros Ht. cbv zeta. unfold handleIndividualUpload. cbn [players setPlayers].
  split; [|split].
  - rewrite map_map. apply map_ext. intros p. destruct (String.eqb (id p) playerId); reflexivity.
  - rewrite map_map. apply map_ext. intros p. destruct (String.eqb (id p) playerId); reflexivity.
  - intros i p Hnth.
    exists (if String.eqb (id p) playerId then withManualImage p (create file) else p).
    split; [rewrite nth_error_map, Hnth; reflexivity|]. split.
    + intros Hne. apply String.eqb_neq in Hne. rewrite Hne. reflexivity.
    + intros Heq. apply String.eqb_eq in Heq. rewrite Heq. intros a.
      assert (Hsrc : getPlayerImageSource a (withManualImage p (create file)) = Some (create file)).
      { unfold getPlayerImageSource, withManualImage. cbn [manualImage]. rewrite Ht. reflexivity. }
      split; [exact Hsrc|].
      intros b agrasenUrl logoUrl canvas Hcanvas.
      rewrite (card_images b _ agrasenUrl logoUrl canvas Hcanvas).
      unfold finalSource, orString. rewrite Hsrc, Ht. reflexivity.
Qed.

Lemma individual_upload_wins_witness :
  truthy (blobUrl {| fileName := "me.png"; contents := "" |}) = true
  /\ map id (players (handleIndividualUpload blobUrl reviewState "player-1"
                        {| fileName := "me.png"; contents := "" |}))
     = map id (players reviewState)
  /\ exists p',
       nth_error (players (handleIndividualUpload blobUrl reviewState "player-1"
                             {| fileName := "me.png"; contents := "" |})) 1 = Some p'
       /\ getPlayerImageSource
            (assets (handleBatchImageUpload blobUrl reviewState
                       [{| fileName := "bowler_1.jpg"; contents := "" |}])) p'
          = Some "blob:me.png".
Proof.
  destruct (individual_upload_wins blobUrl reviewState "player-1"
              {| fileName := "me.png"; contents := "" |} eq_refl)
    as (Hids & _ & Hplayers).
  split; [reflexivity|]. split; [exact Hids|].
  destruct (Hplayers 1%nat sampleBowler eq_refl) as (p' & Hnth & _ & Hsource).
  exists p'. split; [exact Hnth|].
  exact (proj1 (Hsource eq_refl _)).
Defined.

End Photos.

(** ** The handlers of the component *)

Module Component.
Import JS Canvas CardGenerator ExcelService App Spec GeminiService Handlers Strings.
Local Open Scope string_scope.

(** The loop of [handleForgeCards] writes [generatedCards] only. *)
Lemma forgeLoop_frame world agrasen logo :
  forall remaining i cards st,
    let r := forgeLoop world agrasen logo i remaining cards st in
    players (app r) = players st /\ assets (app r) = assets st
    /\ status (app r) = status st /\ errorMessage (app r) = errorMessage st
    /\ selectedCard (app r) = selectedCard st.
Proof.
  induction remaining as [|player rest IH]; intros i cards st; cbv zeta.
  - cbn. auto.
  - cbn [forgeLoop]. destruct (generateCard _ _ _ _) as [url|e]; [|cbn; auto].
    exact (IH (S i) _ (setGeneratedCards _ st)).
Qed.

(** X9.  [handleForgeCards] never leaves the component generating.  When
    a shared image is missing it composes nothing: no card, the status as
    it was, and a message asking for the images.  Otherwise it ends in
    COMPLETED, with the first card selected, when no composition was
    rejected, and in ERROR with the message of the rejection otherwise;
    in both cases the roster and the assets are as before, and the cards
    shown are those produced, or the earlier ones if none was. *)
Theorem forge_outcome world st :
  let r := handleForgeCards world st in
  (present (agrasenImage (assets st)) = None \/ present (logoImage (assets st)) = None ->
     produced r = [] /\ caught r = None
     /\ status (app r) = status st
     /\ generatedCards (app r) = generatedCards st
     /\ players (app r) = players st
     /\ errorMessage (app r) <> None)
  /\ (present (agrasenImage (assets st)) <> None ->
      present (logoImage (assets st)) <> None ->
      players (app r) = players st
      /\ assets (app r) = assets st
      /\ generatedCards (app r) =
           match produced r with [] => generatedCards st | _ => produced r end
      /\ (caught r = None ->
            status (app r) = COMPLETED
            /\ errorMessage (app r) = errorMessage st
            /\ selectedCard (app r) =
                 match produced r with c :: _ => Some c | [] => selectedCard st end)
      /\ (forall e, caught r = Some e ->
            status (app r) = ERROR
            /\ errorMessage (app r) = Some e
            /\ selectedCard (app r) = selectedCard st)).
Proof.
  cbv zeta. unfold handleForgeCards. split.
  - intros [H|H]; rewrite H; [|destruct (present (agrasenImage (assets st)))];
      cbn; repeat split; discriminate.
  - intros Ha Hl.
    destruct (present (agrasenImage (assets st))) as [agrasen|]; [|contradiction].
    destruct (present (logoImage (assets st))) as [logo|]; [|contradiction].
    destruct (forgeLoop_frame world agrasen logo (players (setStatus GENERATING st)) 0 []
                (setStatus GENERATING st)) as (Hp & Has & Hst & Hmsg & Hsel).
    destruct (Batch.forgeLoop_run world agrasen logo (players (setStatus GENERATING st)) 0 []
                (setStatus GENERATING st)) as (done & Hprod & _ & _ & _ & Hcards).
    change ([] ++ done)%list with done in Hprod, Hcards.
    set (loop := forgeLoop world agrasen logo 0 (players (setStatus GENERATING st)) []
                   (setStatus GENERATING st)) in *.
    cbn [players assets status errorMessage selectedCard setStatus generatedCards] in *.
    unfold finish. destruct (caught loop) as [e|] eqn:Hc.
    + cbn [produced caught app players assets status errorMessage selectedCard generatedCards
           setStatus setErrorMessage].
      rewrite Hprod. split; [exact Hp|]. split; [exact Has|]. split; [exact Hcards|].
      split; [discriminate|]. intros e' [= <-]. auto.
    + cbn [produced caught app]. rewrite Hprod.
      destruct done as [|c done];
        cbn [players assets status errorMessage selectedCard generatedCards
             setStatus setSelectedCard];
        (split; [exact Hp|]; split; [exact Has|]; split; [exact Hcards|];
         split; [intros _; auto | discriminate]).
Qed.

(** X10.  [handleParseData] ends in REVIEW, with one player per row of the
    first sheet as roster and no error message, exactly when the chosen
    file is a workbook whose first sheet has a row; otherwise it ends in
    ERROR with the reason as message and the roster it had.  The cards of
    an earlier batch are not cleared by parsing. *)
Theorem parse_step st file :
  excelFile (assets st) = Some file ->
  let st' := handleParseData st in
  (status st' = REVIEW <->
     exists sheetName rows others,
       file = Workbook ((sheetName, rows) :: others) /\ rows <> [])
  /\ (status st' = REVIEW ->
        parseExcelFile file = Fulfilled (players st')
        /\ errorMessage st' = None)
  /\ (status st' <> REVIEW ->
        status st' = ERROR
        /\ players st' = players st
        /\ exists e, parseExcelFile file = Rejected e /\ errorMessage st' = Some e)
  /\ generatedCards st' = generatedCards st
  /\ selectedCard st' = selectedCard st
  /\ assets st' = assets st.
Proof.
  intros Hfile. cbv zeta. unfold handleParseData. rewrite Hfile.
  pose proof (Rows.parseExcelFile_fulfilled file) as Hok.
  destruct (parseExcelFile file) as [parsed|e] eqn:Hparse;
    cbn [status players errorMessage generatedCards selectedCard assets
         setStatus setPlayers setErrorMessage].
  - split; [split; [intros _|reflexivity]|].
    + destruct (proj1 (Hok parsed) eq_refl) as (n & rows & others & Hf & Hr & _).
      exists n, rows, others. auto.
    + split; [auto|]. split; [intros H; contradiction|]. auto.
  - split; [split; [discriminate|]|].
    + intros (n & rows & others & Hf & Hr).
      pose proof (proj2 (Hok (mapIndexed parseRow 0 rows))
                    (ex_intro _ n (ex_intro _ rows (ex_intro _ others
                       (conj Hf (conj Hr eq_refl)))))) as H.
      discriminate.
    + split; [discriminate|]. split; [|auto].
      intros _. split; [reflexivity|]. split; [reflexivity|]. exists e. auto.
Qed.

Lemma parse_step_witness :
  excelFile (assets (setAssets
     {| excelFile := Some (Workbook [("Sheet1", [[("Name", TextCell "A")]])]);
        agrasenImage := None; logoImage := None; localImageMap := [] |} reviewState))
    = Some (Workbook [("Sheet1", [[("Name", TextCell "A")]])])
  /\ status (handleParseData (setAssets
       {| excelFile := Some (Workbook [("Sheet1", [[("Name", TextCell "A")]])]);
          agrasenImage := None; logoImage := None; localImageMap := [] |} reviewState))
     = REVIEW.
Proof.
  split; [reflexivity|].
  apply (proj1 (parse_step
                  (setAssets
                     {| excelFile := Some (Workbook [("Sheet1", [[("Name", TextCell "A")]])]);
                        agrasenImage := None; logoImage := None; localImageMap := [] |}
                     reviewState)
                  (Workbook [("Sheet1", [[("Name", TextCell "A")]])]) eq_refl)).
  exists "Sheet1", [[("Name", TextCell "A")]], []. split; [reflexivity | discriminate].
Defined.

Lemma getScoutReport_truthy g player : truthy (report (getScoutReport g player)) = true.
Proof.
  unfold getScoutReport.
  destruct (present (apiKey g)) as [k|]; [|reflexivity].
  destruct (generateContent g (scoutPrompt player)) as [[text|]|e];
    cbn [report orString]; try reflexivity.
  destruct (truthy text) eqn:Ht; [exact Ht | reflexivity].
Qed.

(** X11.  [getScoutReport] always resolves, and with a non-empty text:
    the text of the service's response when it has one, a fixed message
    otherwise.  Without an API key nothing is sent to the service; with
    one, exactly one prompt is. *)
Theorem scout_report_total g player :
  let r := getScoutReport g player in
  truthy (report r) = true
  /\ (present (apiKey g) = None ->
        sent r = []
        /\ report r = "API Key not configured. Unable to generate scout report.")
  /\ (present (apiKey g) <> None ->
        sent r = [scoutPrompt player]
        /\ (forall text, generateContent g (scoutPrompt player) = Fulfilled (Some text) ->
              truthy text = true -> report r = text)
        /\ (generateContent g (scoutPrompt player) = Fulfilled None
            \/ generateContent g (scoutPrompt player) = Fulfilled (Some "") ->
              report r = "No report available.")
        /\ (forall e, generateContent g (scoutPrompt player) = Rejected e ->
              report r = "Scouting report currently unavailable.")).
Proof.
  cbv zeta. unfold getScoutReport.
  destruct (present (apiKey g)) as [k|].
  - destruct (generateContent g (scoutPrompt player)) as [[text|]|e] eqn:Hgen;
      cbn [report sent orString].
    + destruct (truthy text) eqn:Ht;
        (split; [assumption || reflexivity|]; split; [discriminate|]; intros _;
         split; [reflexivity|]; split;
         [intros t [= <-] Htt; congruence || reflexivity|];
         split; [|discriminate]).
      * intros [H|H]; [discriminate|]. injection H as ->. discriminate.
      * intros _. reflexivity.
    + split; [reflexivity|]. split; [discriminate|]. intros _.
      split; [reflexivity|]. split; [discriminate|]. split; [reflexivity | discriminate].
    + split; [reflexivity|]. split; [discriminate|]. intros _.
      split; [reflexivity|]. split; [discriminate|].
      split; [intros [H|H]; discriminate | reflexivity].
  - cbn [report sent]. split; [reflexivity|]. split; [auto | contradiction].
Qed.

(** X12.  [handleGenerateScoutReport] changes nothing and contacts nobody
    when no card is selected or the selected card's player is not in the
    roster.  Otherwise the cards keep their order, identifiers and
    images; every card of the selected player, and the selected card
    itself if it is among the cards, carries the report, which is not
    empty; the other cards are untouched. *)
Theorem scout_updates_selected g st :
  let st' := fst (handleGenerateScoutReport g st) in
  ((selectedCard st = None
    \/ exists sel, selectedCard st = Some sel
         /\ find (fun p => String.eqb (id p) (playerId sel)) (players st) = None) ->
     handleGenerateScoutReport g st = (st, []))
  /\ (forall sel player,
        selectedCard st = Some sel ->
        find (fun p => String.eqb (id p) (playerId sel)) (players st) = Some player ->
        let text := report (getScoutReport g player) in
        truthy text = true
        /\ map playerId (generatedCards st') = map playerId (generatedCards st)
        /\ map dataUrl (generatedCards st') = map dataUrl (generatedCards st)
        /\ players st' = players st
        /\ (forall i c, nth_error (generatedCards st) i = Some c ->
              exists c', nth_error (generatedCards st') i = Some c'
                /\ (playerId c = playerId sel -> scoutReport c' = Some text)
                /\ (playerId c <> playerId sel -> c' = c))
        /\ (In (playerId sel) (map playerId (generatedCards st)) ->
              exists c', selectedCard st' = Some c'
                /\ playerId c' = playerId sel /\ scoutReport c' = Some text)).
Proof.
  cbv zeta. unfold handleGenerateScoutReport. split.
  - intros [->|(sel & -> & ->)]; reflexivity.
  - intros sel player -> ->.
    set (text := report (getScoutReport g player)).
    set (upd := fun c => if String.eqb (playerId c) (playerId sel)
                         then withScoutReport c text else c).
    assert (Hfst : forall u : option GeneratedCard,
              fst (match u with
                   | Some c => setSelectedCard (Some c) (setGeneratedCards (map upd (generatedCards st)) st)
                   | None => setGeneratedCards (map upd (generatedCards st)) st
                   end, sent (getScoutReport g player))
              = match u with
                | Some c => setSelectedCard (Some c) (setGeneratedCards (map upd (generatedCards st)) st)
                | None => setGeneratedCards (map upd (generatedCards st)) st
                end) by reflexivity.
    rewrite Hfst. clear Hfst.
    assert (Hcards : forall u : option GeneratedCard,
              generatedCards (match u with
                   | Some c => setSelectedCard (Some c) (setGeneratedCards (map upd (generatedCards st)) st)
                   | None => setGeneratedCards (map upd (generatedCards st)) st
                   end) = map upd (generatedCards st)) by (intros [c|]; reflexivity).
    assert (Hplayers : forall u : option GeneratedCard,
              players (match u with
                   | Some c => setSelectedCard (Some c) (setGeneratedCards (map upd (generatedCards st)) st)
                   | None => setGeneratedCards (map upd (generatedCards st)) st
                   end) = players st) by (intros [c|]; reflexivity).
    rewrite Hcards, Hplayers.
    split; [apply getScoutReport_truthy|].
    split; [rewrite map_map; apply map_ext; intros c; unfold upd;
            destruct (String.eqb _ _); reflexivity|].
    split; [rewrite map_map; apply map_ext; intros c; unfold upd;
            destruct (String.eqb _ _); reflexivity|].
    split; [reflexivity|]. split.
    + intros i c Hnth. exists (upd c). split; [rewrite nth_error_map, Hnth; reflexivity|].
      unfold upd. split.
      * intros Heq. apply String.eqb_eq in Heq. rewrite Heq. reflexivity.
      * intros Hne. apply String.eqb_neq in Hne. rewrite Hne. reflexivity.
    + intros Hin.
      destruct (find (fun c => String.eqb (playerId c) (playerId sel))
                  (map upd (generatedCards st))) as [c'|] eqn:Hfind.
      * exists c'. split; [reflexivity|].
        apply find_some in Hfind. destruct Hfind as [Hc' Heq].
        apply String.eqb_eq in Heq. split; [exact Heq|].
        apply in_map_iff in Hc'. destruct Hc' as (c & <- & _).
        unfold upd in *. destruct (String.eqb (playerId c) (playerId sel)) eqn:E;
          [reflexivity|]. apply String.eqb_neq in E. contradiction.
      * exfalso. apply in_map_iff in Hin. destruct Hin as (c & Hid & Hc).
        pose proof (find_none _ _ Hfind (upd c) (in_map upd _ _ Hc)) as Hno.
        cbn in Hno. unfold upd in Hno.
        apply String.eqb_eq in Hid. rewrite Hid in Hno. cbn in Hno.
        rewrite Hid in Hno. discriminate.
Qed.

End Component.

(** ** The archive of cards *)

Module Archive.
Import JS Canvas CardGenerator ExcelService App Spec Handlers Strings.
Local Open Scope string_scope.

Lemma sanitize_length s : String.length (sanitize s) = String.length s.
Proof.
  unfold sanitize. induction s as [|c s IH]; cbn [mapChars String.length];
    [|rewrite IH]; reflexivity.
Qed.

Lemma sanitize_safe s c :
  In c (list_ascii_of_string (sanitize s)) -> isAlphaNumeric c = true \/ c = "_"%char.
Proof.
  unfold sanitize. induction s as [|x s IH]; cbn [mapChars list_ascii_of_string In];
    [intros []|].
  intros [<-|H]; [|exact (IH H)].
  destruct (isAlphaNumeric x) eqn:E; auto.
Qed.

Lemma sanitize_truthy s : truthy (sanitize s) = truthy s.
Proof. destruct s; reflexivity. Qed.

Lemma assign_keys_old {V : Type} (m : list (string * V)) key v :
  In key (map fst m) -> map fst (assign m key v) = map fst m.
Proof.
  induction m as [|[k w] m IH]; cbn; [intros []|].
  destruct (String.eqb k key) eqn:E; cbn; [reflexivity|].
  intros [H|H]; [apply String.eqb_neq in E; contradiction|].
  rewrite (IH H). reflexivity.
Qed.

Lemma assign_keys_new {V : Type} (m : list (string * V)) key v :
  ~ In key (map fst m) -> map fst (assign m key v) = (map fst m ++ [key])%list.
Proof.
  induction m as [|[k w] m IH]; cbn; [reflexivity|].
  intros Hnot. destruct (String.eqb k key) eqn:E; cbn.
  - apply String.eqb_eq in E. exfalso. apply Hnot. left. exact E.
  - rewrite IH; [reflexivity|]. intros H. apply Hnot. right. exact H.
Qed.

Lemma assign_get {V : Type} (m : list (string * V)) key v :
  In (key, v) (assign m key v).
Proof.
  induction m as [|[k w] m IH]; cbn; [left; reflexivity|].
  destruct (String.eqb k key) eqn:E.
  - apply String.eqb_eq in E. subst k. left. reflexivity.
  - right. exact IH.
Qed.

Lemma zip_keys {V : Type} (named : GeneratedCard -> string) (data : GeneratedCard -> V) cards :
  forall zip,
    NoDup (map fst zip) ->
    NoDup (map fst (fold_left (fun z c => assign z (named c) (data c)) cards zip))
    /\ (forall n, In n (map fst (fold_left (fun z c => assign z (named c) (data c)) cards zip))
                  <-> In n (map fst zip) \/ In n (map named cards)).
Proof.
  induction cards as [|c cards IH]; intros zip Hnodup; cbn [fold_left map].
  - split; [exact Hnodup|]. intros n. cbn. tauto.
  - destruct (in_dec string_dec (named c) (map fst zip)) as [Hin|Hnot].
    + destruct (IH (assign zip (named c) (data c))) as [H1 H2].
      { rewrite (assign_keys_old zip _ _ Hin). exact Hnodup. }
      split; [exact H1|]. intros n. rewrite H2, (assign_keys_old zip _ _ Hin).
      cbn. split; [tauto|]. intros [H|[<-|H]]; tauto.
    + destruct (IH (assign zip (named c) (data c))) as [H1 H2].
      { rewrite (assign_keys_new zip _ _ Hnot).
        rewrite <- (rev_involutive (map fst zip ++ [named c])), rev_app_distr.
        apply NoDup_rev. cbn. constructor.
        - rewrite <- in_rev. exact Hnot.
        - apply NoDup_rev. exact Hnodup. }
      split; [exact H1|]. intros n. rewrite H2, (assign_keys_new zip _ _ Hnot).
      rewrite in_app_iff. cbn. tauto.
Qed.

(** X13.  The archive of [handleDownloadZip] holds exactly one file per
    distinct file name among the cards: as many files as cards when the
    names differ, fewer as soon as two cards get the same name.  Every
    name is a non-empty run of letters, digits and underscores followed
    by .png. *)
Theorem archive_one_file_per_name st :
  let zip := handleDownloadZip st in
  let names := map (zipFileName (players st)) (generatedCards st) in
  NoDup (map fst zip)
  /\ (forall n, In n (map fst zip) <-> In n names)
  /\ (List.length zip <= List.length (generatedCards st))%nat
  /\ (NoDup names <-> List.length zip = List.length (generatedCards st))
  /\ (forall n, In n (map fst zip) ->
        exists base,
          n = base ++ ".png" /\ truthy base = true
          /\ forall c, In c (list_ascii_of_string base) ->
                       isAlphaNumeric c = true \/ c = "_"%char).
Proof.
  cbv zeta. unfold handleDownloadZip.
  destruct (zip_keys (zipFileName (players st)) (fun c => secondField (dataUrl c))
              (generatedCards st) [] (NoDup_nil _)) as [Hnodup Hin].
  set (zip := fold_left _ (generatedCards st) []) in *.
  set (names := map (zipFileName (players st)) (generatedCards st)) in *.
  assert (Hiff : forall n, In n (map fst zip) <-> In n names).
  { intros n. rewrite Hin. cbn. tauto. }
  assert (Hlen : (List.length zip <= List.length (generatedCards st))%nat).
  { rewrite <- (length_map fst zip), <- (length_map (zipFileName (players st)) (generatedCards st)).
    apply NoDup_incl_length; [exact Hnodup|]. intros n Hn. apply Hiff. exact Hn. }
  split; [exact Hnodup|]. split; [exact Hiff|]. split; [exact Hlen|]. split; [split|].
  - intros Hnames. apply Nat.le_antisymm; [exact Hlen|].
    rewrite <- (length_map fst zip), <- (length_map (zipFileName (players st)) (generatedCards st)).
    apply NoDup_incl_length; [exact Hnames|]. intros n Hn. apply Hiff. exact Hn.
  - intros Heq. apply NoDup_incl_NoDup with (l := map fst zip); [exact Hnodup| |].
    + unfold names. rewrite !length_map. rewrite Heq. apply Nat.le_refl.
    + intros n Hn. apply Hiff. exact Hn.
  - intros n Hn. apply Hiff in Hn. unfold names in Hn. apply in_map_iff in Hn.
    destruct Hn as (card & <- & _). unfold zipFileName.
    destruct (find _ (players st)) as [p|]; cbn [option_map orString].
    + destruct (truthy (sanitize (name p))) eqn:E.
      * exists (sanitize (name p)). split; [reflexivity|]. split; [exact E|].
        apply sanitize_safe.
      * exists "card". split; [reflexivity|]. split; [reflexivity|].
        intros c [<-|[<-|[<-|[<-|[]]]]]; left; reflexivity.
    + exists "card". split; [reflexivity|]. split; [reflexivity|].
      intros c [<-|[<-|[<-|[<-|[]]]]]; left; reflexivity.
Qed.

Lemma find_by_id ps :
  NoDup (map id ps) ->
  forall p, In p ps -> find (fun q => String.eqb (id q) (id p)) ps = Some p.
Proof.
  induction ps as [|q ps IH]; intros Hnodup p; cbn; [intros []|].
  inversion Hnodup as [|? ? Hnotin Hrest]; subst.
  intros [->|Hin]; [rewrite string_eqb_refl; reflexivity|].
  destruct (String.eqb (id q) (id p)) eqn:E.
  - apply String.eqb_eq in E. exfalso. apply Hnotin. rewrite E. apply in_map. exact Hin.
  - apply (IH Hrest p Hin).
Qed.

(** X14.  When the players' identifiers are distinct, their names are not
    empty and the cards are keyed by the players in order (which parsing
    and a completed batch guarantee), the card at each position is filed
    under the name of the player at that position, every character that
    is not a letter or a digit replaced by an underscore, followed by
    .png, and the file name keeps the length of the player's name. *)
Theorem archive_names_follow_players ps cards :
  NoDup (map id ps) ->
  (forall p, In p ps -> truthy (name p) = true) ->
  map playerId cards = map id ps ->
  map (zipFileName ps) cards = map (fun p => sanitize (name p) ++ ".png") ps
  /\ (forall p, String.length (sanitize (name p) ++ ".png") = (String.length (name p) + 4)%nat).
Proof.
  intros Hnodup Hnames Hkeys. split.
  - assert (Hgen : forall qs cs,
              (forall q, In q qs -> In q ps) ->
              map playerId cs = map id qs ->
              map (zipFileName ps) cs = map (fun p => sanitize (name p) ++ ".png") qs).
    { induction qs as [|q qs IH]; intros [|c cs] Hsub Hk; try discriminate; [reflexivity|].
      cbn in Hk. injection Hk as Hc Hk. cbn [map].
      rewrite (IH cs (fun q' H' => Hsub q' (or_intror H')) Hk). f_equal.
      unfold zipFileName. rewrite Hc.
      rewrite (find_by_id ps Hnodup q (Hsub q (or_introl eq_refl))).
      cbn [option_map orString]. rewrite sanitize_truthy, (Hnames q (Hsub q (or_introl eq_refl))).
      reflexivity. }
    apply (Hgen ps cards (fun q H => H) Hkeys).
  - intros p. generalize (sanitize_length (name p)). generalize (sanitize (name p)).
    intros s <-. induction s as [|c s IH]; cbn; [reflexivity|]. rewrite IH. reflexivity.
Qed.

Lemma archive_names_follow_players_witness :
  NoDup (map id [kohli; sampleBowler])
  /\ map (zipFileName [kohli; sampleBowler])
       (produced (handleForgeCards (fun _ => halfEm) reviewState))
     = ["Virat_Kohli.png"; "Sample_Bowler.png"].
Proof.
  assert (Hnodup : NoDup (map id [kohli; sampleBowler])).
  { repeat constructor; cbn; intuition discriminate. }
  split; [exact Hnodup|].
  assert (Hkeys : map playerId (produced (handleForgeCards (fun _ => halfEm) reviewState))
                  = map id [kohli; sampleBowler]) by (vm_compute; reflexivity).
  assert (Hnames : forall p, In p [kohli; sampleBowler] -> truthy (name p) = true).
  { intros p [<-|[<-|[]]]; reflexivity. }
  rewrite (proj1 (archive_names_follow_players [kohli; sampleBowler] _ Hnodup Hnames Hkeys)).
  reflexivity.
Defined.

End Archive.

(** ** The card *)

Module Card.
Import JS Canvas CardGenerator ExcelService App Spec Handlers Strings.
Local Open Scope string_scope.
Local Open Scope Q_scope.

(** X15.  A text that fits wherever another one does is never drawn
    smaller: if, at every size, the second text fitting its budget
    implies the first fitting its own, then from the same initial size
    [drawTextWithFit] reaches a size for the first text at least as large
    as for the second.  In particular a larger budget never gives a
    smaller size. *)
Theorem fit_is_monotone
    b text maxWidth fontFace fontWeight b' text' maxWidth' fontFace' fontWeight'
    initialFontSize :
  (forall s, fitsAt b' text' maxWidth' fontWeight' fontFace' s ->
             fitsAt b text maxWidth fontWeight fontFace s) ->
  (chosenSize b' text' maxWidth' initialFontSize fontFace' fontWeight'
   <= chosenSize b text maxWidth initialFontSize fontFace fontWeight)%Z.
Proof.
  intros Hdom. unfold chosenSize.
  destruct (TextFit.drawTextWithFit_run b newContext text 0 0 maxWidth initialFontSize
              fontFace fontWeight "#ffffff") as (k & -> & Hb & Hs).
  destruct (TextFit.drawTextWithFit_run b' newContext text' 0 0 maxWidth' initialFontSize
              fontFace' fontWeight' "#ffffff") as (k' & -> & Hb' & Hs').
  cbn [fst].
  destruct (Nat.le_gt_cases k k') as [Hle|Hlt]; [lia|]. exfalso.
  destruct (Hb k' Hlt) as [Hwide Hsize].
  destruct Hs' as [Hfit|Hfloor]; [|lia].
  apply TextFit.fits_iff in Hfit. apply Hdom in Hfit.
  apply TextFit.overflows_iff in Hwide. contradiction.
Qed.

Lemma fit_is_monotone_witness :
  (forall s, fitsAt halfEm longStyle 440 "600" "Montserrat" s ->
             fitsAt halfEm longStyle 480 "600" "Montserrat" s)
  /\ (chosenSize halfEm longStyle 440%Q 24 "Montserrat" "600"
      <= chosenSize halfEm longStyle 480%Q 24 "Montserrat" "600")%Z.
Proof.
  assert (H : forall s, fitsAt halfEm longStyle 440 "600" "Montserrat" s ->
                        fitsAt halfEm longStyle 480 "600" "Montserrat" s).
  { intros s Hs. unfold fitsAt in *. eapply Qle_trans; [exact Hs|]. discriminate. }
  split; [exact H|].
  exact (fit_is_monotone halfEm longStyle 480 "Montserrat" "600"
           halfEm longStyle 440 "Montserrat" "600" 24%Z H).
Defined.

(** X16.  The layout of a card does not depend on its content: whatever
    the player, the images and the browser, the canvas is 600 by 850, 26
    paintings are made, the nine texts are anchored at the same points,
    the photo is drawn into a square whose top is at 135, the portrait
    and the logo into the squares of side 70 at (80, 270) and (80, 360),
    and any two cards agree on all text anchors and image rectangles. *)
Theorem layout_is_fixed b player agrasenUrl logoUrl canvas :
  composeCanvas b player agrasenUrl logoUrl = Fulfilled canvas ->
  width canvas = 600 /\ height canvas = 850
  /\ List.length (bitmap canvas) = 26%nat
  /\ textAnchors (map shape (bitmap canvas)) =
       [(115, 160); (115, 200); (300, 530);
        (300, 585); (300, 615); (300, 643); (300, 673); (300, 701); (300, 731)]
  /\ (exists x side,
        imageBoxes (map shape (bitmap canvas)) =
          [(x, 135, side, side); (80, 270, 70, 70); (80, 360, 70, 70)])
  /\ (forall b' player' agrasenUrl' logoUrl' canvas',
        composeCanvas b' player' agrasenUrl' logoUrl' = Fulfilled canvas' ->
        textAnchors (map shape (bitmap canvas')) = textAnchors (map shape (bitmap canvas))
        /\ imageBoxes (map shape (bitmap canvas')) = imageBoxes (map shape (bitmap canvas))).
Proof.
  intros Hcanvas.
  destruct (Composition.composeCanvas_bitmap b player agrasenUrl logoUrl canvas Hcanvas)
    as (_ & -> & -> & Hbitmap).
  split; [reflexivity|]. split; [reflexivity|].
  rewrite <- (length_map shape (bitmap canvas)), Hbitmap, Composition.drawCard_shapes.
  split; [reflexivity|]. split; [reflexivity|].
  split; [do 2 eexists; reflexivity|].
  intros b' player' agrasenUrl' logoUrl' canvas' Hcanvas'.
  destruct (Composition.composeCanvas_bitmap b' player' agrasenUrl' logoUrl' canvas' Hcanvas')
    as (_ & _ & _ & ->).
  rewrite Composition.drawCard_shapes. split; reflexivity.
Qed.

Lemma layout_is_fixed_witness :
  exists canvas,
    composeCanvas halfEm kohli "data:image/png;base64,AAAA" "data:image/png;base64,BBBB"
      = Fulfilled canvas
    /\ width canvas = 600 /\ height canvas = 850
    /\ List.length (bitmap canvas) = 26%nat.
Proof.
  pose (canvas :=
    {| width := CARD_WIDTH; height := CARD_HEIGHT;
       bitmap := painted (drawCard halfEm kohli (createPlaceholder halfEm)
                   {| src := "data:image/png;base64,AAAA"; crossOrigin := Some "anonymous" |}
                   {| src := "data:image/png;base64,BBBB"; crossOrigin := Some "anonymous" |}
                   newContext) |}).
  assert (H : composeCanvas halfEm kohli "data:image/png;base64,AAAA"
                "data:image/png;base64,BBBB" = Fulfilled canvas)
    by (vm_compute; reflexivity).
  destruct (layout_is_fixed halfEm kohli "data:image/png;base64,AAAA"
              "data:image/png;base64,BBBB" canvas H) as (Hw & Hh & Hn & _).
  exists canvas. auto.
Defined.

(** X17.  On a card the organisation portrait is painted inside the
    circle of radius 35 around (115, 305), itself inside the shield; the
    circle is released before the gold ring around the portrait and the
    logo are painted, which are clipped by the shield only.  Whatever is
    filled or drawn as text or image is painted with [globalAlpha] 1:
    only strokes (texture lines and dividers) are made with a lower
    one. *)
Theorem portrait_is_clipped b player agrasenUrl logoUrl canvas :
  composeCanvas b player agrasenUrl logoUrl = Fulfilled canvas ->
  (exists portrait ring logo,
     nth_error (bitmap canvas) 11 = Some portrait
     /\ nth_error (bitmap canvas) 12 = Some ring
     /\ nth_error (bitmap canvas) 13 = Some logo
     /\ shape portrait = DrawImage (resolved b agrasenUrl) 80 270 70 70
     /\ clipRegion (drawnWith portrait) = [shield; portraitCircle]
     /\ shape ring = StrokePath [Arc 115 305 35 0 2]
     /\ strokeStyle (drawnWith ring) = Color "#ffd700"
     /\ lineWidth (drawnWith ring) = 2
     /\ clipRegion (drawnWith ring) = [shield]
     /\ shape logo = DrawImage (resolved b logoUrl) 80 360 70 70
     /\ clipRegion (drawnWith logo) = [shield])
  /\ Forall opaqueUnlessStroke (bitmap canvas).
Proof.
  intros Hcanvas.
  destruct (Composition.composeCanvas_bitmap b player agrasenUrl logoUrl canvas Hcanvas)
    as (_ & _ & _ & ->).
  set (playerImg := resolved b (imageUrl player)).
  set (agrasenImg := resolved b agrasenUrl).
  set (logoImg := resolved b logoUrl).
  clearbody playerImg agrasenImg logoImg.
  Composition.run_card.
  split.
  - do 3 eexists. repeat split; reflexivity.
  - repeat constructor.
Qed.

Lemma portrait_is_clipped_witness :
  exists canvas,
    composeCanvas halfEm kohli "data:image/png;base64,AAAA" "data:image/png;base64,BBBB"
      = Fulfilled canvas
    /\ Forall opaqueUnlessStroke (bitmap canvas).
Proof.
  pose (canvas :=
    {| width := CARD_WIDTH; height := CARD_HEIGHT;
       bitmap := painted (drawCard halfEm kohli (createPlaceholder halfEm)
                   {| src := "data:image/png;base64,AAAA"; crossOrigin := Some "anonymous" |}
                   {| src := "data:image/png;base64,BBBB"; crossOrigin := Some "anonymous" |}
                   newContext) |}).
  assert (H : composeCanvas halfEm kohli "data:image/png;base64,AAAA"
                "data:image/png;base64,BBBB" = Fulfilled canvas)
    by (vm_compute; reflexivity).
  exists canvas. split; [exact H|].
  exact (proj2 (portrait_is_clipped halfEm kohli "data:image/png;base64,AAAA"
                  "data:image/png;base64,BBBB" canvas H)).
Defined.

Lemma append_length (a c : string) :
  String.length (a ++ c) = (String.length a + String.length c)%nat.
Proof. induction a as [|x a IH]; cbn; [|rewrite IH]; reflexivity. Qed.

Lemma of_list_length l : String.length (string_of_list_ascii l) = List.length l.
Proof. induction l as [|x l IH]; cbn; [|rewrite IH]; reflexivity. Qed.

Lemma padStart_length target pad s :
  String.length (padStart target pad s) = Nat.max target (String.length s).
Proof.
  unfold padStart. rewrite append_length, of_list_length, repeat_length. lia.
Qed.

(** X18.  The rating text of a card always has at least two characters,
    and exactly two for the ratings 0 to 99, a single digit being
    preceded by 0. *)
Theorem rating_has_two_characters player :
  (2 <= String.length (ratingText player))%nat
  /\ ((0 <= formNumber player <= 99)%Z -> String.length (ratingText player) = 2%nat)
  /\ ((0 <= formNumber player <= 9)%Z ->
        ratingText player = "0" ++ toString (formNumber player)).
Proof.
  unfold ratingText. rewrite padStart_length.
  assert (Hall : forallb (fun k => Nat.eqb (String.length (toString (Z.of_nat k)))
                                     (if (k <? 10)%nat then 1 else 2)) (seq 0 100) = true)
    by (vm_compute; reflexivity).
  assert (Hlen : forall n, (0 <= n <= 99)%Z ->
            String.length (toString n) = if (n <? 10)%Z then 1%nat else 2%nat).
  { intros n Hn. rewrite forallb_forall in Hall.
    specialize (Hall (Z.to_nat n)). rewrite Z2Nat.id in Hall by lia.
    assert (Hin : In (Z.to_nat n) (seq 0 100)) by (apply in_seq; lia).
    apply Hall in Hin. apply Nat.eqb_eq in Hin. rewrite Hin.
    destruct (Z.ltb_spec n 10); destruct (Nat.ltb_spec (Z.to_nat n) 10); try reflexivity; lia. }
  split; [lia|]. split.
  - intros Hn. rewrite (Hlen _ Hn). destruct (formNumber player <? 10)%Z; reflexivity.
  - intros Hn. unfold padStart. rewrite (Hlen (formNumber player)) by lia.
    destruct (Z.ltb_spec (formNumber player) 10); [reflexivity | lia].
Qed.

End Card.

(** ** Ratings written in decimal *)

Module Ratings.
Import JS CardGenerator ExcelService Handlers Strings.
Local Open Scope string_scope.

Lemma parseDigits_stop suffix acc :
  stopsDigits suffix -> parseDigits 10 suffix acc = acc.
Proof. destruct suffix as [|c r]; cbn; [reflexivity|]. intros ->. reflexivity. Qed.

Ltac digit_step IH :=
  cbn [NilEmpty.string_of_uint append parseDigits];
  match goal with
  | |- context [digitValue 10 ?c] =>
      let v := eval vm_compute in (digitValue 10 c) in
      change (digitValue 10 c) with v
  end;
  cbv iota beta.

Lemma parseDigits_acc d suffix acc :
  stopsDigits suffix ->
  parseDigits 10 (NilEmpty.string_of_uint d ++ suffix) (Some (Z.pos acc))
  = Some (Z.pos (Pos.of_uint_acc d acc)).
Proof.
  intros Hstop. revert acc.
  induction d as [|d IH|d IH|d IH|d IH|d IH|d IH|d IH|d IH|d IH|d IH]; intros acc;
    [cbn [NilEmpty.string_of_uint append]; apply parseDigits_stop; exact Hstop|..];
    digit_step IH; cbn [Pos.of_uint_acc]; rewrite <- IH; do 2 f_equal; lia.
Qed.

Lemma parseDigits_zero d suffix :
  stopsDigits suffix ->
  parseDigits 10 (NilEmpty.string_of_uint d ++ suffix) (Some 0%Z)
  = Some (Z.of_N (Pos.of_uint d)).
Proof.
  intros Hstop.
  induction d as [|d IH|d IH|d IH|d IH|d IH|d IH|d IH|d IH|d IH|d IH];
    [cbn [NilEmpty.string_of_uint append]; apply parseDigits_stop; exact Hstop
    |digit_step IH; exact IH
    |digit_step IH; cbn [Pos.of_uint Z.of_N];
     rewrite <- (parseDigits_acc d suffix _ Hstop); reflexivity..].
Qed.

Lemma parseDigits_first d suffix :
  stopsDigits suffix -> d <> Decimal.Nil ->
  parseDigits 10 (NilEmpty.string_of_uint d ++ suffix) None
  = Some (Z.of_N (Pos.of_uint d)).
Proof.
  intros Hstop Hd.
  destruct d as [|d|d|d|d|d|d|d|d|d|d];
    [contradiction
    |digit_step tt; exact (parseDigits_zero d suffix Hstop)
    |digit_step tt; cbn [Pos.of_uint Z.of_N];
     rewrite <- (parseDigits_acc d suffix _ Hstop); reflexivity..].
Qed.

Lemma trimStart_keep c r :
  isWhiteSpace c = false -> trimStart (String c r) = String c r.
Proof. intros H. cbn [trimStart]. rewrite H. reflexivity. Qed.

(** Digits followed by [suffix] are read in radix 10 from their first
    character on, after a minus sign or not: they begin with no white
    space and, unless they are the single digit 0, with no [0x]. *)
Lemma parseInt_uint d suffix :
  stopsDigits suffix -> d <> Decimal.Nil -> d <> Decimal.D0 Decimal.Nil ->
  parseInt (NilEmpty.string_of_uint d ++ suffix) = Some (Z.of_N (Pos.of_uint d))
  /\ parseInt (String "-" (NilEmpty.string_of_uint d ++ suffix))
     = Some (- Z.of_N (Pos.of_uint d))%Z.
Proof.
  intros Hstop Hnil Hzero.
  pose proof (parseDigits_first d suffix Hstop Hnil) as Hdigits.
  revert Hdigits.
  destruct d as [|d|d|d|d|d|d|d|d|d|d]; try contradiction;
    try (cbn [NilEmpty.string_of_uint append]; intros Hdigits; unfold parseInt;
         rewrite !trimStart_keep by reflexivity; cbv iota beta;
         rewrite Hdigits; split; f_equal; lia).
  destruct d as [|d|d|d|d|d|d|d|d|d|d]; try contradiction;
    cbn [NilEmpty.string_of_uint append]; intros Hdigits; unfold parseInt;
    rewrite !trimStart_keep by reflexivity; cbv iota beta;
    rewrite Hdigits; split; f_equal; lia.
Qed.

Lemma toString_cases n :
  toString n =
    match n with
    | 0%Z => "0"
    | Z.pos p => NilEmpty.string_of_uint (Pos.to_uint p)
    | Z.neg p => String "-" (NilEmpty.string_of_uint (Pos.to_uint p))
    end.
Proof.
  destruct n as [|p|p]; [reflexivity|..]; unfold toString; cbn;
    pose proof (DecimalPos.Unsigned.to_uint_nonnil p);
    destruct (Pos.to_uint p); try contradiction; reflexivity.
Qed.

Lemma parseInt_toString n suffix :
  stopsDigits suffix -> n <> 0%Z -> parseInt (toString n ++ suffix) = Some n.
Proof.
  intros Hstop Hn. rewrite toString_cases.
  destruct n as [|p|p]; [contradiction|..];
    destruct (parseInt_uint (Pos.to_uint p) suffix Hstop
                (DecimalPos.Unsigned.to_uint_nonnil p)
                (DecimalPos.Unsigned.to_uint_nonzero p)) as [Hpos Hneg];
    rewrite DecimalPos.Unsigned.of_to in Hpos, Hneg; [exact Hpos | exact Hneg].
Qed.

Lemma toString_not_empty n : toString n <> "".
Proof.
  rewrite toString_cases. destruct n as [|p|p]; [discriminate| |discriminate].
  pose proof (DecimalPos.Unsigned.to_uint_nonnil p) as Hnil.
  destruct (Pos.to_uint p); [contradiction|discriminate..].
Qed.

(** X19.  A rating that is not 0 survives the spreadsheet.  For an
    integer [n] other than 0 that a double holds exactly (at most
    [MAX_SAFE_INTEGER] in absolute value): when the rating cell of a row
    holds the decimal digits of [n], followed by nothing or by anything
    that does not start with a digit (a percent sign, a decimal point
    and fraction), [parseInt] reads [n] back from what [toString] writes,
    the parsed player has rating [n], and the rating text of the card is
    the digits of [n] padded to two characters. *)
Theorem decimal_rating_is_kept n suffix :
  (Z.abs n <= MAX_SAFE_INTEGER)%Z ->
  stopsDigits suffix -> n <> 0%Z ->
  parseInt (toString n ++ suffix) = Some n
  /\ forall row index,
       getRowValue row formKeys = Some (toString n ++ suffix) ->
       formNumber (parseRow row index) = n
       /\ ratingText (parseRow row index) = padStart 2 "0" (toString n).
Proof.
  intros _ Hstop Hn.
  pose proof (parseInt_toString n suffix Hstop Hn) as Hparse.
  split; [exact Hparse|]. intros row index Hcell.
  assert (Hform : formNumber (parseRow row index) = n).
  { unfold parseRow. cbn [formNumber]. rewrite Hcell. unfold orString.
    assert (Htruthy : truthy (toString n ++ suffix) = true).
    { pose proof (toString_not_empty n) as Hne.
      destruct (toString n); [contradiction|reflexivity]. }
    rewrite Htruthy, Hparse. unfold orNumber.
    destruct (Z.eqb_spec n 0); [contradiction|reflexivity]. }
  split; [exact Hform|]. unfold ratingText. rewrite Hform. reflexivity.
Qed.

Lemma decimal_rating_is_kept_witness :
  (Z.abs 85 <= MAX_SAFE_INTEGER)%Z /\ stopsDigits "%" /\ 85%Z <> 0%Z
  /\ formNumber (parseRow [("Name", TextCell "A"); ("Rating", TextCell "85%")] 0) = 85%Z.
Proof.
  assert (Hsafe : (Z.abs 85 <= MAX_SAFE_INTEGER)%Z) by (unfold MAX_SAFE_INTEGER; lia).
  assert (Hstop : stopsDigits "%") by reflexivity.
  assert (Hn : 85%Z <> 0%Z) by lia.
  split; [exact Hsafe|]. split; [exact Hstop|]. split; [exact Hn|].
  exact (proj1 (proj2 (decimal_rating_is_kept 85 "%" Hsafe Hstop Hn)
                 [("Name", TextCell "A"); ("Rating", TextCell "85%")] 0%nat eq_refl)).
Defined.

End Ratings.
